(** * ts-types-from-strapi: the parser/transformer core of [src/generate.ts]

    A shallow embedding of the functions [convertTypeNameToPascalCase],
    [transformAttributeType], [parseAttributes] and the transformation inside
    [generateTypes], together with the string and regular-expression
    primitives of the JavaScript runtime they are written with.  The command
    line, the file system and the console are left out: [generateTypes] is
    the function from the text of the input file to the text written to the
    output file.

    Strings are [string]s of the standard library, one [ascii] per code
    unit.  The codes below 128 are the ASCII code units, with the character
    classes ([\s], [\w], [.], line terminators) and the [toUpperCase] that
    ECMAScript gives them; the codes from 128 on stand for code units that
    are in none of these classes and that [toUpperCase] leaves alone. *)

From Stdlib Require Import Strings.String Strings.Ascii Lists.List.
From Stdlib Require Import ZArith Bool Arith Lia Sorting.Sorted.
Import ListNotations.
Open Scope string_scope.

(* ================================================================== *)
(** ** JavaScript string primitives *)
(* ================================================================== *)

Module JS.

(** Truthiness of a string: [if (s)] holds for the non-empty ones. *)
Definition truthy (s : string) : bool :=
  match s with
  | EmptyString => false
  | String _ _ => true
  end.

Definition code (c : ascii) : N := N_of_ascii c.

Definition in_range (lo hi : N) (c : ascii) : bool :=
  (lo <=? code c)%N && (code c <=? hi)%N.

(** White space and line terminators, the class [\s] and what [trim]
    removes: TAB, LF, VT, FF, CR and SPACE. *)
Definition is_space (c : ascii) : bool :=
  in_range 9 13 c || (code c =? 32)%N.

(** Line terminators, which [.] refuses and before which [$] holds under
    the [m] flag: LF and CR. *)
Definition is_line_terminator (c : ascii) : bool :=
  (code c =? 10)%N || (code c =? 13)%N.

(** The class [\w]: [A-Za-z0-9_]. *)
Definition is_word (c : ascii) : bool :=
  in_range 65 90 c || in_range 97 122 c || in_range 48 57 c || (code c =? 95)%N.

Definition upper_char (c : ascii) : ascii :=
  if in_range 97 122 c then ascii_of_N (code c - 32) else c.

(** [s.toUpperCase()] *)
Fixpoint toUpperCase (s : string) : string :=
  match s with
  | EmptyString => EmptyString
  | String c s' => String (upper_char c) (toUpperCase s')
  end.

(** [s.charAt(0)]: the first code unit as a string, empty on the empty string. *)
Definition charAt0 (s : string) : string :=
  match s with
  | EmptyString => EmptyString
  | String c _ => String c EmptyString
  end.

(** [s.slice(1)] *)
Definition slice1 (s : string) : string :=
  match s with
  | EmptyString => EmptyString
  | String _ s' => s'
  end.

(** [strip_prefix l s] is what follows [l] when [s] starts with [l]. *)
Fixpoint strip_prefix (l s : string) : option string :=
  match l with
  | EmptyString => Some s
  | String a l' =>
      match s with
      | EmptyString => None
      | String b s' => if Ascii.eqb a b then strip_prefix l' s' else None
      end
  end.

(** [s.startsWith(l)] *)
Definition startsWith (s l : string) : bool :=
  match strip_prefix l s with
  | Some _ => true
  | None => false
  end.

(** [s.indexOf(l)], with [None] for -1. *)
Fixpoint indexOf (s l : string) : option nat :=
  if startsWith s l then Some 0
  else
    match s with
    | EmptyString => None
    | String _ s' => option_map S (indexOf s' l)
    end.

(** [s.includes(l)] *)
Definition includes (s l : string) : bool :=
  match indexOf s l with
  | Some _ => true
  | None => false
  end.

(** [s.endsWith(l)] *)
Fixpoint endsWith (s l : string) : bool :=
  if String.eqb s l then true
  else
    match s with
    | EmptyString => false
    | String _ s' => endsWith s' l
    end.

Fixpoint trimStart (s : string) : string :=
  match s with
  | EmptyString => EmptyString
  | String c s' => if is_space c then trimStart s' else s
  end.

Fixpoint trimEnd (s : string) : string :=
  match s with
  | EmptyString => EmptyString
  | String c s' =>
      let t := trimEnd s' in
      if is_space c && negb (truthy t) then EmptyString else String c t
  end.

(** [s.trim()] *)
Definition trim (s : string) : string := trimEnd (trimStart s).

(** [parts.join(sep)] *)
Fixpoint join (sep : string) (parts : list string) : string :=
  match parts with
  | [] => EmptyString
  | [p] => p
  | p :: ps => p ++ sep ++ join sep ps
  end.

(** [s.split(sep)] for a non-empty separator string (the program splits on
    ["\n"] and on ["::"]).  The scan goes left to right; once a separator
    is found at a position its remaining [length sep - 1] code units are
    skipped, so occurrences do not overlap.  The result is the first piece
    and the list of the pieces after it. *)
Fixpoint split_from (sep : string) (s : string) (skip : nat)
  : string * list string :=
  match s with
  | EmptyString => (EmptyString, [])
  | String c s' =>
      match skip with
      | S n => split_from sep s' n
      | O =>
          if startsWith s sep then
            let '(p, ps) := split_from sep s' (String.length sep - 1) in
            (EmptyString, p :: ps)
          else
            let '(p, ps) := split_from sep s' 0 in
            (String c p, ps)
      end
  end.

Definition split (s sep : string) : list string :=
  let '(p, ps) := split_from sep s 0 in p :: ps.

End JS.

(* ================================================================== *)
(** ** Regular expressions *)
(* ================================================================== *)

(** The fragment of ECMAScript regular expressions the program uses:
    a pattern is a sequence of literals, single-character classes,
    quantified single-character classes (greedy [*], [+], [?] and lazy
    [*?]), each of which may be a capture group, and the assertions [^]
    (without the [m] flag) and [$] (with or without it).  The matcher is the
    backtracking one of the language: a greedy quantifier first takes as
    much as it can and gives characters back one at a time, a lazy one
    first takes nothing and extends one character at a time. *)

Module Regex.

Import JS.

Inductive quant : Type :=
| Star       (* x*  *)
| Plus       (* x+  *)
| Opt        (* x?  *)
| LazyStar.  (* x*? *)

Inductive atom : Type :=
| Str (l : string)                                (* literal text *)
| Cls (p : ascii -> bool)                         (* one character of a class *)
| Rep (q : quant) (cap : bool) (p : ascii -> bool)
      (* a quantified class; [cap] when it is a capture group *)
| Bos                                             (* ^ without the m flag *)
| Eol (m : bool).                                 (* $, [m] = the m flag *)

Definition regex : Type := list atom.

(** Character classes of the patterns. *)
Definition any_char (_ : ascii) : bool := true.            (* [\s\S] *)
Definition dot (c : ascii) : bool := negb (is_line_terminator c). (* . *)
Definition chr (a : ascii) (c : ascii) : bool := Ascii.eqb a c.
Definition not_chr (a : ascii) (c : ascii) : bool := negb (Ascii.eqb a c).

(** The outcome of a match: the capture groups in order and the input left
    after the matched text. *)
Definition outcome : Type := (list string * string)%type.

Section Quantifiers.

(** [k bos s] runs the rest of the pattern on [s]; [bos] tells whether [s]
    is still the whole input. *)
Variable p : ascii -> bool.
Variable k : bool -> string -> option outcome.

Definition consumed (c : ascii) (r : option (string * outcome))
  : option (string * outcome) :=
  match r with
  | Some (w, o) => Some (String c w, o)
  | None => None
  end.

Definition stop_here (bos : bool) (s : string) : option (string * outcome) :=
  match k bos s with
  | Some o => Some (EmptyString, o)
  | None => None
  end.

Fixpoint greedy_star (bos : bool) (s : string) : option (string * outcome) :=
  match s with
  | String c s' =>
      if p c then
        match greedy_star false s' with
        | Some (w, o) => Some (String c w, o)
        | None => stop_here bos s
        end
      else stop_here bos s
  | EmptyString => stop_here bos s
  end.

Definition greedy_plus (bos : bool) (s : string) : option (string * outcome) :=
  match s with
  | String c s' => if p c then consumed c (greedy_star false s') else None
  | EmptyString => None
  end.

Definition greedy_opt (bos : bool) (s : string) : option (string * outcome) :=
  match s with
  | String c s' =>
      if p c then
        match k false s' with
        | Some o => Some (String c EmptyString, o)
        | None => stop_here bos s
        end
      else stop_here bos s
  | EmptyString => stop_here bos s
  end.

Fixpoint lazy_star (bos : bool) (s : string) : option (string * outcome) :=
  match k bos s with
  | Some o => Some (EmptyString, o)
  | None =>
      match s with
      | String c s' => if p c then consumed c (lazy_star false s') else None
      | EmptyString => None
      end
  end.

Definition repeat (q : quant) : bool -> string -> option (string * outcome) :=
  match q with
  | Star => greedy_star
  | Plus => greedy_plus
  | Opt => greedy_opt
  | LazyStar => lazy_star
  end.

End Quantifiers.

Definition at_eol (m : bool) (s : string) : bool :=
  match s with
  | EmptyString => true
  | String c _ => m && is_line_terminator c
  end.

(** [match_here re bos s] matches [re] at the start of [s]. *)
Fixpoint match_here (re : regex) : bool -> string -> option outcome :=
  match re with
  | [] => fun _ s => Some ([], s)
  | a :: re' =>
      let k := match_here re' in
      match a with
      | Str l => fun bos s =>
          match strip_prefix l s with
          | Some t => k (bos && negb (truthy l)) t
          | None => None
          end
      | Cls p => fun bos s =>
          match s with
          | String c s' => if p c then k false s' else None
          | EmptyString => None
          end
      | Rep q cap p => fun bos s =>
          match repeat p k q bos s with
          | Some (w, (caps, rest)) => Some (if cap then w :: caps else caps, rest)
          | None => None
          end
      | Bos => fun bos s => if bos then k bos s else None
      | Eol m => fun bos s => if at_eol m s then k bos s else None
      end
  end.

(** [search re bos s]: the leftmost match of [re] in [s], as
    [RegExp.prototype.exec] finds it from the current position: the text
    before the match, the capture groups, and the text after the match. *)
Fixpoint search (re : regex) (bos : bool) (s : string)
  : option (string * list string * string) :=
  match match_here re bos s with
  | Some (caps, rest) => Some (EmptyString, caps, rest)
  | None =>
      match s with
      | EmptyString => None
      | String c s' =>
          match search re false s' with
          | Some (pre, caps, rest) => Some (String c pre, caps, rest)
          | None => None
          end
      end
  end.

(** [s.match(re)] for a pattern without the [g] flag: the capture groups
    of the leftmost match. *)
Definition exec (re : regex) (s : string) : option (list string) :=
  match search re true s with
  | Some (_, caps, _) => Some caps
  | None => None
  end.

(** A pass over the whole input under the [g] flag.  Every position is
    either the start of a match ([Hit], with its captures) or a code unit
    outside any match ([Skip]).  After a match of [n] code units the scan
    resumes [n] positions further; after an empty match the next code unit
    is passed over, as the language advances [lastIndex]. *)
Inductive token : Type :=
| Skip (c : ascii)
| Hit (caps : list string).

Fixpoint scan (re : regex) (bos : bool) (s : string) (skip : nat) : list token :=
  match s with
  | EmptyString =>
      match skip with
      | O =>
          match match_here re bos EmptyString with
          | Some (caps, _) => [Hit caps]
          | None => []
          end
      | S _ => []
      end
  | String c s' =>
      match skip with
      | S n => scan re false s' n
      | O =>
          match match_here re bos s with
          | Some (caps, rest) =>
              match String.length s - String.length rest with
              | O => Hit caps :: Skip c :: scan re false s' 0
              | S n => Hit caps :: scan re false s' n
              end
          | None => Skip c :: scan re false s' 0
          end
      end
  end.

(** [(s.match(re) || []).length] for a pattern with the [g] flag. *)
Definition match_count (re : regex) (s : string) : nat :=
  List.length (filter (fun t => match t with Hit _ => true | Skip _ => false end)
                      (scan re true s 0)).

Fixpoint replace_tokens (rep : string) (ts : list token) : string :=
  match ts with
  | [] => EmptyString
  | Skip c :: ts' => String c (replace_tokens rep ts')
  | Hit _ :: ts' => rep ++ replace_tokens rep ts'
  end.

(** [s.replace(re, rep)] for a pattern with the [g] flag and a replacement
    without [$] references. *)
Definition replace_all (re : regex) (rep : string) (s : string) : string :=
  replace_tokens rep (scan re true s 0).

(** [s.replace(re, rep)] for a pattern without the [g] flag. *)
Definition replace_first (re : regex) (rep : string) (s : string) : string :=
  match search re true s with
  | Some (pre, _, rest) => pre ++ rep ++ rest
  | None => s
  end.

(** [s.split(re)] for a pattern whose matches are never empty: the pieces
    between the matches. *)
Fixpoint split_tokens (ts : list token) : string * list string :=
  match ts with
  | [] => (EmptyString, [])
  | Skip c :: ts' => let '(p, ps) := split_tokens ts' in (String c p, ps)
  | Hit _ :: ts' => let '(p, ps) := split_tokens ts' in (EmptyString, p :: ps)
  end.

Definition split_re (re : regex) (s : string) : list string :=
  let '(p, ps) := split_tokens (scan re true s 0) in p :: ps.

End Regex.

(* ================================================================== *)
(** ** The program *)
(* ================================================================== *)

Import JS Regex.

Definition LF : string := String "010" EmptyString.

(** [m[n]] for the result [m] of a successful match, [n >= 1]. *)
Definition group (n : nat) (caps : list string) : string :=
  nth (n - 1) caps EmptyString.

(** Loops run on fuel; [None] stands for a loop that has not left when the
    fuel is used up.  The totality theorems below show that the fuel the
    program's functions are given is always enough. *)
Notation "x <- c ;; k" :=
  (match c with Some x => k | None => None end)
  (at level 61, c at next level, right associativity).

Fixpoint while {St : Type} (fuel : nat) (cond : St -> bool)
  (body : St -> option St) (st : St) {struct fuel} : option St :=
  if cond st then
    match fuel with
    | O => None
    | S fuel' => st' <- body st ;; while fuel' cond body st'
    end
  else Some st.

Record Attribute : Type := {
  name : string;
  type : string;
  required : bool
}.

Record ParsedInterface : Type := {
  interface_name : string;
  attributes : list Attribute
}.

(** *** [convertTypeNameToPascalCase] *)

(** The pattern "/[-.]/" *)
Definition is_dash_or_dot (c : ascii) : bool := chr "-" c || chr "." c.
Definition dashDotRegex : regex := [Cls is_dash_or_dot].

(** [word.charAt(0).toUpperCase() + word.slice(1)] *)
Definition capitalize (word : string) : string :=
  toUpperCase (charAt0 word) ++ slice1 word.

Definition convertPart (part : string) : string :=
  join "" (map capitalize (split_re dashDotRegex part)).

Definition convertTypeNameToPascalCase (typeName : string) : string :=
  join "" (map convertPart (split typeName "::")).

(** *** [transformAttributeType] *)

(** The pattern "/Enumeration<\s*\[([^\]]+)\]\s*>/" *)
Definition enumRegex : regex :=
  [Str "Enumeration<"; Rep Star false is_space; Str "[";
   Rep Plus true (not_chr "]"); Str "]"; Rep Star false is_space; Str ">"].

(** The pattern "/Relation<'([^']+)',\s*'([^']+)'/" *)
Definition relationRegex : regex :=
  [Str "Relation<'"; Rep Plus true (not_chr "'"); Str "',";
   Rep Star false is_space; Str "'"; Rep Plus true (not_chr "'"); Str "'"].

(** The patterns "/\s+/g" and "/,\s*/g" *)
Definition spacesRegex : regex := [Rep Plus false is_space].
Definition commaRegex : regex := [Str ","; Rep Star false is_space].

Definition transformAttributeType (attributeType : string) : string :=
  if includes attributeType "Schema.Attribute.Enumeration" then
    match exec enumRegex attributeType with
    | Some enumMatch =>
        if truthy (group 1 enumMatch) then
          trim (replace_all commaRegex " | "
                  (replace_all spacesRegex " " (group 1 enumMatch)))
        else "string"
    | None => "string"
    end
  else if includes attributeType "Schema.Attribute.Relation" then
    match exec relationRegex attributeType with
    | Some relationMatch =>
        if truthy (group 1 relationMatch) && truthy (group 2 relationMatch) then
          let relationType := group 1 relationMatch in
          let targetType := group 2 relationMatch in
          let typeName := convertTypeNameToPascalCase targetType in
          if String.eqb relationType "oneToMany"
             || String.eqb relationType "manyToMany"
          then typeName ++ "[]"
          else typeName
        else "any"
    | None => "any"
    end
  else if includes attributeType "Schema.Attribute.JSON" then
    if includes attributeType "DefaultTo<'[]'>"
       || includes attributeType "DefaultTo<[]>"
    then "any[]"
    else if includes attributeType "DefaultTo<'{}'>"
            || includes attributeType "DefaultTo<{}>"
    then "Record<string, any>"
    else "Record<string, any>"
  else if includes attributeType "Schema.Attribute.String" then "string"
  else if includes attributeType "Schema.Attribute.Email" then "string"
  else if includes attributeType "Schema.Attribute.Password" then "string"
  else if includes attributeType "Schema.Attribute.Text" then "string"
  else if includes attributeType "Schema.Attribute.Integer" then "number"
  else if includes attributeType "Schema.Attribute.BigInteger" then "number"
  else if includes attributeType "Schema.Attribute.Decimal" then "number"
  else if includes attributeType "Schema.Attribute.Boolean" then "boolean"
  else if includes attributeType "Schema.Attribute.DateTime" then "string"
  else "any".

(** *** [parseAttributes] *)

(** The pattern of the first line of an attribute: "^", the group "(\w+)",
    ":", "\s*" and a second group around ".*" *)
Definition attrRegex : regex :=
  [Bos; Rep Plus true is_word; Str ":"; Rep Star false is_space;
   Rep Star true dot].

(** The pattern "/;$/" *)
Definition trailingSemicolonRegex : regex := [Str ";"; Eol false].

(** [(s.match(/</g) || []).length - (s.match(/>/g) || []).length], and the
    same for the other two kinds of bracket. *)
Definition occurrences (c : string) (s : string) : Z :=
  Z.of_nat (match_count [Str c] s).

Definition net (opening closing : string) (s : string) : Z :=
  (occurrences opening s - occurrences closing s)%Z.

(** [attributesContent.split("\n").map((line) => line.trim()).filter((line) => line)] *)
Definition lines_of (attributesContent : string) : list string :=
  filter truthy (map trim (split attributesContent LF)).

(** The variables of the continuation loop. *)
Record reading : Type := {
  i : nat;
  attrType : string;
  openAngle : Z;
  openBrace : Z;
  openBracket : Z
}.

(** The condition of the inner [while]. *)
Definition unfinished (lines : list string) (r : reading) : bool :=
  (i r <? List.length lines)%nat
  && (negb (endsWith (attrType r) ";")
      || (openAngle r >? 0)%Z
      || (openBrace r >? 0)%Z
      || (openBracket r >? 0)%Z).

(** The body of the inner [while]; [lines[i]] is read below
    [lines.length] only. *)
Definition append_line (lines : list string) (r : reading) : reading :=
  let nextLine := nth (i r) lines EmptyString in
  {| i := S (i r);
     attrType := attrType r ++ " " ++ nextLine;
     openAngle := (openAngle r + net "<" ">" nextLine)%Z;
     openBrace := (openBrace r + net "{" "}" nextLine)%Z;
     openBracket := (openBracket r + net "[" "]" nextLine)%Z |}.

(** The variables as they stand before the inner [while]. *)
Definition start_reading (index : nat) (attrType0 : string) : reading :=
  {| i := S index;
     attrType := attrType0;
     openAngle := net "<" ">" attrType0;
     openBrace := net "{" "}" attrType0;
     openBracket := net "[" "]" attrType0 |}.

(** [attrType.replace(/;$/, "").replace(/\s+/g, " ").trim()] *)
Definition clean (attrType : string) : string :=
  trim (replace_all spacesRegex " "
          (replace_first trailingSemicolonRegex "" attrType)).

(** [line.match] of the pattern above with the test
    [attrMatch && attrMatch[1] && attrMatch[2]]: the name and the start of
    the type expression of the attribute that [line] begins. *)
Definition attribute_start (line : string) : option (string * string) :=
  match exec attrRegex line with
  | Some attrMatch =>
      if truthy (group 1 attrMatch) && truthy (group 2 attrMatch)
      then Some (group 1 attrMatch, group 2 attrMatch)
      else None
  | None => None
  end.

(** The inner [while], entered after the first line of an attribute, at
    [index], gave the start [attrType0] of its type expression. *)
Definition continuation (fuel : nat) (lines : list string) (index : nat)
  (attrType0 : string) : option reading :=
  while fuel (unfinished lines) (fun r => Some (append_line lines r))
    (start_reading index attrType0).

(** One turn of the outer [while], on its variables [i] and [attributes]. *)
Definition parse_step (fuel : nat) (lines : list string)
  (st : nat * list Attribute) : option (nat * list Attribute) :=
  let '(index, attributes) := st in
  let line := nth index lines EmptyString in
  match attribute_start line with
  | Some (attrName, attrType0) =>
      r <- continuation fuel lines index attrType0 ;;
      let attrType := clean (attrType r) in
      if includes attrType "Schema.Attribute.Private" then
        Some (i r, attributes)
      else
        let isRequired := includes attrType "Schema.Attribute.Required" in
        let transformedType := transformAttributeType attrType in
        Some (i r,
              (attributes ++ [{| name := attrName;
                                 type := transformedType;
                                 required := isRequired |}])%list)
  | None => Some (S index, attributes)
  end.

Definition parse_lines (fuel : nat) (lines : list string)
  : option (list Attribute) :=
  st <- while fuel (fun st => (fst st <? List.length lines)%nat)
          (parse_step fuel lines) (0, []) ;;
  Some (snd st).

Definition parseAttributes (attributesContent : string)
  : option (list Attribute) :=
  let lines := lines_of attributesContent in
  parse_lines (List.length lines) lines.

(** *** [generateTypes] *)

(** The pattern "/export interface (\w+)[^{]*\{([\s\S]*?)\n\}/g" *)
Definition interfaceRegex : regex :=
  [Str "export interface "; Rep Plus true is_word;
   Rep Star false (not_chr "{"); Str "{"; Rep LazyStar true any_char;
   Str (LF ++ "}")].

(** The pattern "/attributes:\s*\{([\s\S]*?)\s*\};?\s*$/m" *)
Definition attributesRegex : regex :=
  [Str "attributes:"; Rep Star false is_space; Str "{";
   Rep LazyStar true any_char; Rep Star false is_space; Str "}";
   Rep Opt false (chr ";"); Rep Star false is_space; Eol true].

(** The body of the [while] over the matches of [interfaceRegex], on the
    capture groups of one match. *)
Definition visit (interfaceMatch : list string)
  (interfaces : list ParsedInterface) : option (list ParsedInterface) :=
  if truthy (group 1 interfaceMatch) && truthy (group 2 interfaceMatch) then
    let interfaceName := group 1 interfaceMatch in
    let interfaceContent := group 2 interfaceMatch in
    match exec attributesRegex interfaceContent with
    | Some attributesMatch =>
        if truthy (group 1 attributesMatch) then
          let attributesContent := group 1 attributesMatch in
          attributes <- parseAttributes attributesContent ;;
          if (0 <? List.length attributes)%nat then
            Some (interfaces ++ [{| interface_name := interfaceName;
                                    attributes := attributes |}])%list
          else Some interfaces
        else Some interfaces
    | None => Some interfaces
    end
  else Some interfaces.

(** [while ((match = interfaceRegex.exec(backendContent)) !== null)]:
    [rest] is the input from [lastIndex] on. *)
Fixpoint collect (fuel : nat) (bos : bool) (rest : string)
  (interfaces : list ParsedInterface) {struct fuel}
  : option (list ParsedInterface) :=
  match search interfaceRegex bos rest with
  | None => Some interfaces
  | Some (_, interfaceMatch, rest') =>
      match fuel with
      | O => None
      | S fuel' =>
          interfaces' <- visit interfaceMatch interfaces ;;
          collect fuel' false rest' interfaces'
      end
  end.

Definition render_attribute (attr : Attribute) : string :=
  let optional := if required attr then "" else "?" in
  "  " ++ name attr ++ optional ++ ": " ++ type attr ++ ";".

Definition render_interface (iface : ParsedInterface) : string :=
  let props := join LF (map render_attribute (attributes iface)) in
  "export interface " ++ interface_name iface ++ " {" ++ LF ++ props ++ LF ++ "}".

Definition render (interfaces : list ParsedInterface) : string :=
  join (LF ++ LF) (map render_interface interfaces).

(** The interfaces [generateTypes] collects from the text of the input
    file, and the text it hands to [fs.writeFileSync]. *)
Definition parseInterfaces (backendContent : string)
  : option (list ParsedInterface) :=
  collect (String.length backendContent) true backendContent [].

Definition generateTypes (backendContent : string) : option string :=
  interfaces <- parseInterfaces backendContent ;;
  Some (render interfaces).

(* ================================================================== *)
(** ** Notions the statements are written with *)
(* ================================================================== *)

Definition DQ : string := String "034" EmptyString.

Fixpoint all_chars (p : ascii -> bool) (s : string) : bool :=
  match s with
  | EmptyString => true
  | String c s' => p c && all_chars p s'
  end.

(** [s] is empty or starts with a character outside [p]. *)
Definition head_outside (p : ascii -> bool) (s : string) : bool :=
  match s with
  | EmptyString => true
  | String c _ => negb (p c)
  end.

(** *** What a pattern denotes *)

Definition quant_ok (q : quant) (n : nat) : Prop :=
  match q with
  | Star | LazyStar => True
  | Plus => 1 <= n
  | Opt => n <= 1
  end.

(** [matches re bos s caps rest]: [s] is some text that [re] matches,
    with capture groups [caps], followed by [rest]; no order among the
    possible matches is implied. *)
Fixpoint matches (re : regex) (bos : bool) (s : string)
  (caps : list string) (rest : string) : Prop :=
  match re with
  | [] => caps = [] /\ rest = s
  | a :: re' =>
      match a with
      | Str l =>
          exists t, s = l ++ t /\ matches re' (bos && negb (truthy l)) t caps rest
      | Cls p =>
          exists c t, s = String c t /\ p c = true /\ matches re' false t caps rest
      | Rep q cap p =>
          exists w t caps',
            s = w ++ t /\ all_chars p w = true /\ quant_ok q (String.length w)
            /\ matches re' (bos && negb (truthy w)) t caps' rest
            /\ caps = (if cap then w :: caps' else caps')
      | Bos => bos = true /\ matches re' bos s caps rest
      | Eol m => at_eol m s = true /\ matches re' bos s caps rest
      end
  end.

(** What a quantified class that succeeded has read: a run [w] of the
    class, of a length the quantifier allows, after which the rest [k] of
    the pattern succeeded with outcome [o]. *)
Definition reads (p : ascii -> bool) (k : bool -> string -> option outcome)
  (q : quant) (bos : bool) (s w : string) (o : outcome) : Prop :=
  exists t, s = w ++ t /\ all_chars p w = true /\ quant_ok q (String.length w)
            /\ k (bos && negb (truthy w)) t = Some o.

(** *** Enumerations and relations inside a type expression *)

(** [s] holds, after [pre], the text "Enumeration<", white space, a
    bracketed non-empty list [body] free of the closing bracket, white
    space and ">". *)
Definition enumeration_at (s pre body : string) : Prop :=
  exists ws1 ws2 post,
    s = pre ++ "Enumeration<" ++ ws1 ++ "[" ++ body ++ "]" ++ ws2 ++ ">" ++ post
    /\ all_chars is_space ws1 = true /\ all_chars is_space ws2 = true
    /\ truthy body = true /\ all_chars (not_chr "]") body = true.

Definition leftmost_enumeration (s pre body : string) : Prop :=
  enumeration_at s pre body
  /\ forall pre' body', enumeration_at s pre' body' ->
       String.length pre <= String.length pre'.



(** Runs of white space collapsed to one space; [in_run] when the previous
    character was white space. *)
Fixpoint collapse_from (in_run : bool) (s : string) : string :=
  match s with
  | EmptyString => EmptyString
  | String c s' =>
      if is_space c then
        if in_run then collapse_from true s'
        else String " " (collapse_from true s')
      else String c (collapse_from false s')
  end.

Definition collapse (s : string) : string := collapse_from false s.

(** Each comma, with the white space after it, turned into the union
    separator; [after_comma] while that white space is passed over. *)
Fixpoint bars_from (after_comma : bool) (s : string) : string :=
  match s with
  | EmptyString => EmptyString
  | String c s' =>
      if after_comma && is_space c then bars_from true s'
      else if chr "," c then " | " ++ bars_from true s'
      else String c (bars_from false s')
  end.

Definition bars (s : string) : string := bars_from false s.

(** *** The table of scalar markers *)

Inductive scalar : Type :=
| SString | SEmail | SPassword | SText
| SInteger | SBigInteger | SDecimal
| SBoolean | SDateTime.

Definition marker (m : scalar) : string :=
  match m with
  | SString => "Schema.Attribute.String"
  | SEmail => "Schema.Attribute.Email"
  | SPassword => "Schema.Attribute.Password"
  | SText => "Schema.Attribute.Text"
  | SInteger => "Schema.Attribute.Integer"
  | SBigInteger => "Schema.Attribute.BigInteger"
  | SDecimal => "Schema.Attribute.Decimal"
  | SBoolean => "Schema.Attribute.Boolean"
  | SDateTime => "Schema.Attribute.DateTime"
  end.

(** The primitive type documented for each scalar marker. *)
Definition documented (m : scalar) : string :=
  match m with
  | SString | SEmail | SPassword | SText | SDateTime => "string"
  | SInteger | SBigInteger | SDecimal => "number"
  | SBoolean => "boolean"
  end.

(** The place of each marker in the order in which
    [transformAttributeType] tests them. *)
Definition rank (m : scalar) : nat :=
  match m with
  | SString => 0
  | SEmail => 1
  | SPassword => 2
  | SText => 3
  | SInteger => 4
  | SBigInteger => 5
  | SDecimal => 6
  | SBoolean => 7
  | SDateTime => 8
  end.

(** *** The continuation loop *)

(** The text built from [attrType0] by appending the lines [ls], each
    after a single space. *)
Definition accumulate (attrType0 : string) (ls : list string) : string :=
  fold_left (fun acc l => acc ++ " " ++ l) ls attrType0.

(** The point at which the inner [while] leaves before the end of the
    input: the text ends with a semicolon and none of the three net counts
    is positive. *)
Definition complete (t : string) : bool :=
  endsWith t ";"
  && (net "<" ">" t <=? 0)%Z && (net "{" "}" t <=? 0)%Z && (net "[" "]" t <=? 0)%Z.

(** The stopping point in the words of the specification: the text ends
    with a semicolon and each of the three net counts is exactly zero. *)
Definition balanced_spec (t : string) : bool :=
  endsWith t ";"
  && (net "<" ">" t =? 0)%Z && (net "{" "}" t =? 0)%Z && (net "[" "]" t =? 0)%Z.

(** *** Declarations and blocks *)

(** The outer [while] of [parseAttributes] without the test for the private
    marker: every group of lines read as one attribute, private or not, with
    its name and its cleaned type expression. *)
Definition declare_step (fuel : nat) (lines : list string)
  (st : nat * list (string * string)) : option (nat * list (string * string)) :=
  let '(index, declarations) := st in
  match attribute_start (nth index lines EmptyString) with
  | Some (attrName, attrType0) =>
      r <- continuation fuel lines index attrType0 ;;
      Some (i r, (declarations ++ [(attrName, clean (attrType r))])%list)
  | None => Some (S index, declarations)
  end.

Definition declarations (attributesContent : string)
  : option (list (string * string)) :=
  let lines := lines_of attributesContent in
  st <- while (List.length lines) (fun st => (fst st <? List.length lines)%nat)
          (declare_step (List.length lines) lines) (0, []) ;;
  Some (snd st).

Definition is_private (d : string * string) : bool :=
  includes (snd d) "Schema.Attribute.Private".

Definition record_of (d : string * string) : Attribute :=
  {| name := fst d;
     type := transformAttributeType (snd d);
     required := includes (snd d) "Schema.Attribute.Required" |}.

(** The successive matches of [interfaceRegex] in the input, in the order
    in which [exec] finds them: for each the position at which it starts
    and its two capture groups.  [rest] is the input from [lastIndex] on and
    [offset] is [lastIndex]. *)
Fixpoint interface_blocks (fuel : nat) (bos : bool) (rest : string)
  (offset : nat) {struct fuel} : option (list (nat * list string)) :=
  match search interfaceRegex bos rest with
  | None => Some []
  | Some (pre, interfaceMatch, rest') =>
      match fuel with
      | O => None
      | S fuel' =>
          blocks <- interface_blocks fuel' false rest'
                      (offset + (String.length rest - String.length rest')) ;;
          Some ((offset + String.length pre, interfaceMatch) :: blocks)
      end
  end.

(** The pattern of an interface matches in [content] at the position of
    [block], with the capture groups of [block]. *)
Definition located (content : string) (block : nat * list string) : Prop :=
  exists before text rest bos,
    content = before ++ text
    /\ String.length before = fst block
    /\ matches interfaceRegex bos text (snd block) rest.

(** The attributes sub-block of an interface block, when it has one. *)
Definition attributes_block (interfaceMatch : list string) : option string :=
  if truthy (group 1 interfaceMatch) && truthy (group 2 interfaceMatch) then
    match exec attributesRegex (group 2 interfaceMatch) with
    | Some attributesMatch =>
        if truthy (group 1 attributesMatch)
        then Some (group 1 attributesMatch)
        else None
    | None => None
    end
  else None.

(** The interface a block is retained as, if it is. *)
Definition retained (interfaceMatch : list string) : list ParsedInterface :=
  match attributes_block interfaceMatch with
  | Some attributesContent =>
      match parseAttributes attributesContent with
      | Some (a :: l) =>
          [{| interface_name := group 1 interfaceMatch; attributes := a :: l |}]
      | _ => []
      end
  | None => []
  end.

(** *** Converted names *)

Definition no_dash_dot (c : ascii) : bool := negb (is_dash_or_dot c).

(** [s] is empty or starts with a character [toUpperCase] leaves alone. *)
Definition capitalized (s : string) : Prop :=
  match s with
  | EmptyString => True
  | String c _ => upper_char c = c
  end.

(** *** The enumeration of three literals *)

(** The list of enumeration literals "a", "b", "c", each in double
    quotes, with white space [w0] before the first, [w1] and [w2] after the
    commas and [w3] after the last. *)
Definition abc_list (w0 w1 w2 w3 : string) : string :=
  w0 ++ DQ ++ "a" ++ DQ ++ "," ++ w1 ++ DQ ++ "b" ++ DQ ++ "," ++ w2
     ++ DQ ++ "c" ++ DQ ++ w3.

Definition abc_union : string :=
  DQ ++ "a" ++ DQ ++ " | " ++ DQ ++ "b" ++ DQ ++ " | " ++ DQ ++ "c" ++ DQ.

(** A multi-line enumeration of "a", "b", "c" joined with a required marker. *)
Definition enumeration_sample : string :=
  "Schema.Attribute.Enumeration<" ++ LF
  ++ "      [" ++ abc_list (LF ++ "        ") (LF ++ "        ") (LF ++ "        ")
                           (LF ++ "      ")
  ++ "]" ++ LF ++ "    > & Schema.Attribute.Required".

(** *** The state of the loops, turn after turn *)

(** The variables of the inner [while] after [k] turns. *)
Definition reading_after (lines : list string) (index : nat)
  (attrType0 : string) (k : nat) : reading :=
  Nat.iter k (append_line lines) (start_reading index attrType0).

Definition hits (ts : list token) : nat :=
  List.length (filter (fun t => match t with Hit _ => true | Skip _ => false end) ts).

(** What relates the variables of the outer [while] of [parseAttributes]
    to those of the loop that keeps every declaration. *)
Definition records_of (st : nat * list Attribute)
  (st' : nat * list (string * string)) : Prop :=
  fst st = fst st'
  /\ snd st = map record_of (filter (fun d => negb (is_private d)) (snd st')).

(** *** Sample inputs *)

Definition continuation_sample : string :=
  "status: Schema.Attribute.Enumeration<" ++ LF
  ++ "    ['draft', 'published']" ++ LF
  ++ "  > &" ++ LF
  ++ "  Schema.Attribute.Required;" ++ LF
  ++ "title: Schema.Attribute.String;".

Definition negative_count_sample : string :=
  "arrow: b>;" ++ LF ++ "next: c<;".

Definition private_sample : string :=
  "password: Schema.Attribute.Password &" ++ LF
  ++ "  Schema.Attribute.Required &" ++ LF
  ++ "  Schema.Attribute.Private;" ++ LF
  ++ "title: Schema.Attribute.String;".

(** The scenario of the documentation: one interface with a string, a
    text, an enumeration, two relations and a JSON attribute. *)
Definition scenario_input : string :=
  join LF
    ["export interface ApiArticleArticle {";
     "  id: number;";
     "  attributes: {";
     "    title: Schema.Attribute.String & Schema.Attribute.Required;";
     "    content: Schema.Attribute.Text;";
     "    status: Schema.Attribute.Enumeration<[" ++ DQ ++ "draft" ++ DQ ++ ","
       ++ DQ ++ "published" ++ DQ ++ "]> &";
     "      Schema.Attribute.Required;";
     "    author: Schema.Attribute.Relation<'oneToOne', 'api::author.author'>;";
     "    tags: Schema.Attribute.Relation<'oneToMany', 'api::tag.tag'>;";
     "    metadata: Schema.Attribute.JSON &";
     "      Schema.Attribute.DefaultTo<{}>;";
     "  };";
     "}";
     ""].

Definition scenario_output : string :=
  join LF
    ["export interface ApiArticleArticle {";
     "  title: string;";
     "  content?: string;";
     "  status: " ++ DQ ++ "draft" ++ DQ ++ " | " ++ DQ ++ "published" ++ DQ ++ ";";
     "  author?: ApiAuthorAuthor;";
     "  tags?: ApiTagTag[];";
     "  metadata?: Record<string, any>;";
     "}"].

(** The same scenario with the relations written with double quotes, as
    the README prints its example input. *)
Definition scenario_input_double_quoted : string :=
  join LF
    ["export interface ApiArticleArticle {";
     "  id: number;";
     "  attributes: {";
     "    title: Schema.Attribute.String & Schema.Attribute.Required;";
     "    author: Schema.Attribute.Relation<" ++ DQ ++ "oneToOne" ++ DQ ++ ", "
       ++ DQ ++ "api::author.author" ++ DQ ++ ">;";
     "  };";
     "}";
     ""].

(** An interface whose first attribute carries plugin options written as a
    nested object over several lines, as Strapi generates them for
    localized fields, followed by a second attribute. *)
Definition nested_options_body : string :=
  join LF
    ["";
     "  attributes: {";
     "    title: Schema.Attribute.String &";
     "      Schema.Attribute.SetPluginOptions<{";
     "        i18n: {";
     "          localized: true;";
     "        };";
     "      }>;";
     "    content: Schema.Attribute.Text;";
     "  };"].

Definition nested_options_input : string :=
  "export interface ApiArticleArticle {" ++ nested_options_body ++ LF ++ "}" ++ LF.

(** An interface with an attributes sub-block, and before it an interface
    without one, closed on the line that opens it or on a line of its
    own. *)
Definition foo_interface : string :=
  join LF
    ["export interface ApiFooFoo {";
     "  attributes: {";
     "    a: Schema.Attribute.String;";
     "  };";
     "}";
     EmptyString].

Definition one_line_interface_input : string :=
  "export interface Empty {}" ++ LF ++ foo_interface.

Definition own_line_interface_input : string :=
  "export interface Empty {" ++ LF ++ "}" ++ LF ++ foo_interface.

(** *** Notions of the invariants and of the composition laws *)

(** White space is tidy when it is the space character. *)
Definition tidy (c : ascii) : bool := negb (is_space c) || chr " " c.

(** What [parseAttributes] keeps true of the attributes it returns. *)
Definition well_formed (attr : Attribute) : Prop :=
  truthy (name attr) = true
  /\ all_chars is_word (name attr) = true
  /\ all_chars tidy (type attr) = true
  /\ all_chars dot (render_attribute attr) = true.

(** A line that begins no attribute, or that begins one whose type
    expression is complete on the line. *)
Definition settled (line : string) : bool :=
  match attribute_start line with
  | Some (_, attrType0) => complete attrType0
  | None => true
  end.

(** The declaration a line makes by itself. *)
Definition line_declaration (line : string) : list (string * string) :=
  match attribute_start line with
  | Some (attrName, attrType0) => [(attrName, clean attrType0)]
  | None => []
  end.

(** The conversion of a name from a point of the scan of its double
    colons: [q] is the part read so far and [skip] what is left to pass of
    a separator. *)
Definition convert_from (q : string) (s : string) (skip : nat) : string :=
  let '(p, ps) := split_from "::" s skip in
  join "" (map convertPart ((q ++ p) :: ps)).

(** What [generateTypes] keeps true of the interfaces it collects. *)
Definition well_formed_interface (iface : ParsedInterface) : Prop :=
  truthy (interface_name iface) = true
  /\ all_chars is_word (interface_name iface) = true
  /\ 1 <= List.length (attributes iface)
  /\ Forall well_formed (attributes iface).

(** The lines an interface is rendered as, and the lines of the rendering
    of a list of interfaces: an empty line stands between two interfaces. *)
Definition interface_lines (iface : ParsedInterface) : list string :=
  ("export interface " ++ interface_name iface ++ " {")
    :: (map render_attribute (attributes iface) ++ ["}"])%list.

Definition output_lines (interfaces : list ParsedInterface) : list string :=
  match interfaces with
  | [] => [EmptyString]
  | iface :: others =>
      (interface_lines iface
       ++ flat_map (fun other => EmptyString :: interface_lines other) others)%list
  end.

(** The last atom of the pattern is the literal character [c]. *)
Fixpoint ends_with_char (c : ascii) (re : regex) : Prop :=
  match re with
  | [] => False
  | [a] => a = Str (String c EmptyString)
  | _ :: re' => ends_with_char c re'
  end.

(** The outcome of a match in a text, seen in the text followed by [z]. *)
Definition followed_by (z : string) (r : option outcome) : option outcome :=
  match r with
  | Some (caps, rest) => Some (caps, rest ++ z)
  | None => None
  end.

(** The same for a quantified class, which gives the text it reads too. *)
Definition read_followed (z : string) (r : option (string * outcome))
  : option (string * outcome) :=
  match r with
  | Some (w, (caps, rest)) => Some (w, (caps, rest ++ z))
  | None => None
  end.

(** The texts that [transformAttributeType] looks for with [includes]. *)
Definition type_markers : list string :=
  ["Schema.Attribute.Enumeration"; "Schema.Attribute.Relation";
   "Schema.Attribute.JSON"; "DefaultTo<'[]'>"; "DefaultTo<[]>";
   "DefaultTo<'{}'>"; "DefaultTo<{}>";
   "Schema.Attribute.String"; "Schema.Attribute.Email";
   "Schema.Attribute.Password"; "Schema.Attribute.Text";
   "Schema.Attribute.Integer"; "Schema.Attribute.BigInteger";
   "Schema.Attribute.Decimal"; "Schema.Attribute.Boolean";
   "Schema.Attribute.DateTime"].

(** A text that holds none of these, no closing angle bracket and no single
    quote: modifiers such as the required, unique and private markers. *)
Definition neutral (y : string) : bool :=
  all_chars (not_chr ">") y && all_chars (not_chr "'") y
  && forallb (fun l => negb (includes y l)) type_markers.

(** *** Further sample inputs *)

Definition declaration_less_input : string :=
  join LF ["interface Local {"; "  attributes: {"; "    title: Schema.Attribute.String;";
           "  };"; "}"].

Definition colon_free_block : string :=
  join LF [""; "    // no declarations"; "    Schema.Attribute.String & Schema.Attribute.Required;"; "  "].

Definition settled_sample : string :=
  join LF [""; "    // fields"; "    title: Schema.Attribute.String & Schema.Attribute.Required;";
           "    secret: Schema.Attribute.Password & Schema.Attribute.Private;";
           "    tags: Schema.Attribute.Relation<'oneToMany', 'api::tag.tag'>;"].

(* ================================================================== *)
(** ** Strings *)
(* ================================================================== *)

Lemma append_nil_r (s : string) : s ++ "" = s.
Proof. induction s as [|c s IH]; simpl; [reflexivity | now rewrite IH]. Qed.

Lemma append_assoc (a b c : string) : (a ++ b) ++ c = a ++ b ++ c.
Proof. induction a as [|x a IH]; simpl; [reflexivity | now rewrite IH]. Qed.

Lemma length_append (a b : string) :
  String.length (a ++ b) = String.length a + String.length b.
Proof. induction a as [|x a IH]; simpl; [reflexivity | now rewrite IH]. Qed.

Lemma truthy_length (s : string) : truthy s = true <-> 1 <= String.length s.
Proof. destruct s; simpl; split; intros; try lia; try discriminate; reflexivity. Qed.

Lemma strip_prefix_app (l t : string) : strip_prefix l (l ++ t) = Some t.
Proof.
  induction l as [|a l IH]; simpl; [reflexivity|].
  now rewrite Ascii.eqb_refl.
Qed.

Lemma strip_prefix_inv (l s t : string) : strip_prefix l s = Some t -> s = l ++ t.
Proof.
  revert s; induction l as [|a l IH]; simpl; intros s H.
  - now inversion H.
  - destruct s as [|b s]; [discriminate|].
    destruct (Ascii.eqb_spec a b) as [->|]; [|discriminate].
    now rewrite (IH _ H).
Qed.

Lemma startsWith_app (l t : string) : startsWith (l ++ t) l = true.
Proof. unfold startsWith; now rewrite strip_prefix_app. Qed.

Lemma includes_cons_false (c : ascii) (s l : string) :
  includes (String c s) l = false ->
  startsWith (String c s) l = false /\ includes s l = false.
Proof.
  unfold includes; simpl.
  destruct (startsWith (String c s) l); [discriminate|].
  destruct (indexOf s l); simpl; [discriminate|]; auto.
Qed.

(** An occurrence of [l] after [pre] puts the first occurrence at most at
    the length of [pre]. *)
Lemma indexOf_least (pre l x : string) :
  exists n, indexOf (pre ++ l ++ x) l = Some n /\ n <= String.length pre.
Proof.
  induction pre as [|c pre IH]; simpl.
  - replace (indexOf (l ++ x) l) with (Some 0).
    + exists 0; auto.
    + destruct (l ++ x) eqn:E; simpl; rewrite <- E, startsWith_app; reflexivity.
  - destruct (startsWith (String c (pre ++ l ++ x)) l).
    + exists 0; split; [reflexivity | lia].
    + destruct IH as (n & -> & Hn); exists (S n); split; [reflexivity | lia].
Qed.

Lemma all_chars_app (p : ascii -> bool) (a b : string) :
  all_chars p (a ++ b) = all_chars p a && all_chars p b.
Proof.
  induction a as [|c a IH]; simpl; [reflexivity|].
  now rewrite IH, andb_assoc.
Qed.


(* ================================================================== *)
(** ** The matcher *)
(* ================================================================== *)

Section RepeatLemmas.

Variable p : ascii -> bool.
Variable k : bool -> string -> option outcome.

Lemma stop_here_reads (q : quant) (bos : bool) (s w : string) (o : outcome) :
  quant_ok q 0 -> stop_here k bos s = Some (w, o) -> reads p k q bos s w o.
Proof.
  unfold stop_here; intros Hq H.
  destruct (k bos s) as [o'|] eqn:E; [|discriminate].
  inversion H; subst; exists s; simpl.
  now rewrite andb_true_r.
Qed.

Lemma reads_cons (q : quant) (bos : bool) (c : ascii) (s w : string) (o : outcome) :
  p c = true -> reads p k Star false s w o ->
  (quant_ok q (S (String.length w))) ->
  reads p k q bos (String c s) (String c w) o.
Proof.
  intros Hc (t & -> & Hw & _ & Hk) Hq.
  exists t; simpl; rewrite Hc, Hw, andb_false_r; repeat split; auto.
Qed.

Lemma greedy_star_sound (bos : bool) (s w : string) (o : outcome) :
  greedy_star p k bos s = Some (w, o) -> reads p k Star bos s w o.
Proof.
  revert bos w o; induction s as [|c s IH]; intros bos w o; simpl.
  - now apply stop_here_reads.
  - destruct (p c) eqn:Hc; [|now apply stop_here_reads].
    destruct (greedy_star p k false s) as [[w' o']|] eqn:E.
    + intros H; inversion H; subst.
      apply reads_cons; simpl; auto.
    + now apply stop_here_reads.
Qed.

Lemma lazy_star_sound (bos : bool) (s w : string) (o : outcome) :
  lazy_star p k bos s = Some (w, o) -> reads p k LazyStar bos s w o.
Proof.
  revert bos w o; induction s as [|c s IH]; intros bos w o; simpl.
  - destruct (k bos "") eqn:E; [|discriminate].
    intros H; inversion H; subst; exists ""; simpl; now rewrite andb_true_r.
  - destruct (k bos (String c s)) eqn:E.
    + intros H; inversion H; subst; exists (String c s); simpl.
      now rewrite andb_true_r.
    + destruct (p c) eqn:Hc; [|discriminate].
      destruct (lazy_star p k false s) as [[w' o']|] eqn:E'; [|discriminate].
      simpl; intros H; inversion H; subst.
      destruct (IH _ _ _ E') as (t & -> & Hw & _ & Hk).
      exists t; simpl; rewrite Hc, Hw, andb_false_r; repeat split; auto.
Qed.

Lemma repeat_sound (q : quant) (bos : bool) (s w : string) (o : outcome) :
  repeat p k q bos s = Some (w, o) -> reads p k q bos s w o.
Proof.
  destruct q; simpl.
  - apply greedy_star_sound.
  - unfold greedy_plus; destruct s as [|c s]; [discriminate|].
    destruct (p c) eqn:Hc; [|discriminate].
    destruct (greedy_star p k false s) as [[w' o']|] eqn:E; [|discriminate].
    simpl; intros H; inversion H; subst.
    apply reads_cons; simpl; auto; [now apply greedy_star_sound | lia].
  - unfold greedy_opt; destruct s as [|c s]; [now apply stop_here_reads; simpl; lia|].
    destruct (p c) eqn:Hc; [|now apply stop_here_reads; simpl; lia].
    destruct (k false s) as [o'|] eqn:E; [|now apply stop_here_reads; simpl; lia].
    intros H; inversion H; subst.
    exists s; simpl; rewrite Hc, andb_false_r; repeat split; auto.
  - apply lazy_star_sound.
Qed.

(** A greedy quantifier that can take all of [w] and no more, and after
    which the rest of the pattern succeeds, takes exactly [w]. *)
Lemma greedy_star_max (bos : bool) (w t : string) (o : outcome) :
  all_chars p w = true -> head_outside p t = true ->
  k (bos && negb (truthy w)) t = Some o ->
  greedy_star p k bos (w ++ t) = Some (w, o).
Proof.
  revert bos; induction w as [|c w IH]; intros bos Hw Ht Hk; simpl in *.
  - rewrite andb_true_r in Hk.
    destruct t as [|c t]; simpl in *; unfold stop_here.
    + now rewrite Hk.
    + destruct (p c); [discriminate|]. now rewrite Hk.
  - apply andb_prop in Hw as [Hc Hw]; rewrite Hc.
    rewrite (IH false Hw Ht); [reflexivity|].
    rewrite andb_false_r in Hk. now destruct w.
Qed.

Lemma greedy_plus_max (bos : bool) (w t : string) (o : outcome) :
  truthy w = true ->
  all_chars p w = true -> head_outside p t = true ->
  k false t = Some o ->
  greedy_plus p k bos (w ++ t) = Some (w, o).
Proof.
  destruct w as [|c w]; [discriminate|]; intros _ Hw Ht Hk; simpl in *.
  apply andb_prop in Hw as [Hc Hw]; rewrite Hc.
  rewrite (greedy_star_max false w t o); auto.
Qed.

End RepeatLemmas.

Lemma match_here_sound (re : regex) (bos : bool) (s : string)
  (caps : list string) (rest : string) :
  match_here re bos s = Some (caps, rest) -> matches re bos s caps rest.
Proof.
  revert bos s caps rest; induction re as [|a re IH]; intros bos s caps rest; simpl.
  - intros H; inversion H; auto.
  - destruct a as [l|p|q cap p| |m].
    + destruct (strip_prefix l s) as [t|] eqn:E; [|discriminate].
      intros H; exists t; split; [now apply strip_prefix_inv | now apply IH].
    + destruct s as [|c s]; [discriminate|].
      destruct (p c) eqn:Hc; [|discriminate].
      intros H; exists c, s; auto.
    + destruct (repeat p (match_here re) q bos s) as [[w [caps' rest']]|] eqn:E;
        [|discriminate].
      intros H; inversion H; subst.
      apply repeat_sound in E as (t & -> & Hw & Hq & Hk).
      exists w, t, caps'; repeat split; auto.
    + destruct bos; [|discriminate]. intros H; split; auto.
    + destruct (at_eol m s) eqn:E; [|discriminate]. intros H; split; auto.
Qed.

(** The text a pattern matches ends where the rest begins. *)
Lemma matches_suffix (re : regex) (bos : bool) (s : string)
  (caps : list string) (rest : string) :
  matches re bos s caps rest -> exists m, s = m ++ rest.
Proof.
  revert bos s caps; induction re as [|a re IH]; intros bos s caps; simpl.
  - intros [_ ->]; now exists "".
  - destruct a as [l|p|q cap p| |m].
    + intros (t & -> & H). destruct (IH _ _ _ H) as (m & ->).
      exists (l ++ m); now rewrite append_assoc.
    + intros (c & t & -> & _ & H). destruct (IH _ _ _ H) as (m & ->).
      now exists (String c m).
    + intros (w & t & caps' & -> & _ & _ & H & _). destruct (IH _ _ _ H) as (m & ->).
      exists (w ++ m); now rewrite append_assoc.
    + intros [_ H]; eauto.
    + intros [_ H]; eauto.
Qed.

Lemma match_here_Str (l : string) (re : regex) (bos : bool) (t : string) :
  match_here (Str l :: re) bos (l ++ t)
  = match_here re (bos && negb (truthy l)) t.
Proof. simpl; now rewrite strip_prefix_app. Qed.

Lemma match_here_Str_fail (l : string) (re : regex) (bos : bool) (s : string) :
  startsWith s l = false -> match_here (Str l :: re) bos s = None.
Proof.
  unfold startsWith; simpl; destruct (strip_prefix l s); [discriminate | reflexivity].
Qed.

Lemma match_here_Star (cap : bool) (p : ascii -> bool) (re : regex)
  (bos : bool) (w t : string) (caps : list string) (rest : string) :
  all_chars p w = true -> head_outside p t = true ->
  match_here re (bos && negb (truthy w)) t = Some (caps, rest) ->
  match_here (Rep Star cap p :: re) bos (w ++ t)
  = Some (if cap then w :: caps else caps, rest).
Proof.
  intros Hw Ht Hk; simpl.
  now rewrite (greedy_star_max p (match_here re) bos w t (caps, rest)).
Qed.

Lemma match_here_Plus (cap : bool) (p : ascii -> bool) (re : regex)
  (bos : bool) (w t : string) (caps : list string) (rest : string) :
  truthy w = true -> all_chars p w = true -> head_outside p t = true ->
  match_here re false t = Some (caps, rest) ->
  match_here (Rep Plus cap p :: re) bos (w ++ t)
  = Some (if cap then w :: caps else caps, rest).
Proof.
  intros Hn Hw Ht Hk; simpl.
  now rewrite (greedy_plus_max p (match_here re) bos w t (caps, rest)).
Qed.

(** [search] returns the first position at which [match_here] succeeds. *)
Lemma search_found (re : regex) (bos : bool) (pre t : string)
  (caps : list string) (rest : string) :
  (forall a b, pre = a ++ b -> truthy b = true ->
               match_here re (bos && negb (truthy a)) (b ++ t) = None) ->
  match_here re (bos && negb (truthy pre)) t = Some (caps, rest) ->
  search re bos (pre ++ t) = Some (pre, caps, rest).
Proof.
  revert bos; induction pre as [|c pre IH]; intros bos Hnone Hhere.
  - simpl in *. rewrite andb_true_r in Hhere.
    destruct t; simpl; now rewrite Hhere.
  - simpl. specialize (Hnone "" (String c pre) eq_refl eq_refl) as H0.
    simpl in H0; rewrite andb_true_r in H0; rewrite H0.
    rewrite (IH false); [reflexivity| |].
    + intros a b -> Hb. specialize (Hnone (String c a) b eq_refl Hb).
      simpl in Hnone; now rewrite andb_false_r in Hnone.
    + simpl in Hhere; now rewrite andb_false_r in Hhere.
Qed.

Lemma search_sound (re : regex) (bos : bool) (s pre : string)
  (caps : list string) (rest : string) :
  search re bos s = Some (pre, caps, rest) ->
  exists t, s = pre ++ t
            /\ match_here re (bos && negb (truthy pre)) t = Some (caps, rest).
Proof.
  revert bos pre; induction s as [|c s IH]; intros bos pre; simpl.
  - destruct (match_here re bos "") as [[caps' rest']|] eqn:E; [|discriminate].
    intros H; inversion H; subst. exists ""; simpl; now rewrite andb_true_r.
  - destruct (match_here re bos (String c s)) as [[caps' rest']|] eqn:E.
    + intros H; inversion H; subst. exists (String c s); simpl; now rewrite andb_true_r.
    + destruct (search re false s) as [[[pre' caps'] rest']|] eqn:E'; [|discriminate].
      intros H; inversion H; subst.
      destruct (IH _ _ E') as (t & -> & Ht).
      exists t; simpl; rewrite andb_false_r; split; auto.
Qed.

(* ================================================================== *)
(** ** Global scans *)
(* ================================================================== *)

Lemma scan_hit (re : regex) (bos : bool) (c : ascii) (s : string)
  (caps : list string) (rest : string) (n : nat) :
  match_here re bos (String c s) = Some (caps, rest) ->
  String.length (String c s) - String.length rest = S n ->
  scan re bos (String c s) 0 = Hit caps :: scan re false s n.
Proof. intros H L; cbn [scan]; now rewrite H, L. Qed.

Lemma scan_miss (re : regex) (bos : bool) (c : ascii) (s : string) :
  match_here re bos (String c s) = None ->
  scan re bos (String c s) 0 = Skip c :: scan re false s 0.
Proof. intros H; cbn [scan]; now rewrite H. Qed.

(** Skipping over the rest [w] of a match. *)
Lemma scan_skip (re : regex) (bos : bool) (w t : string) :
  scan re bos (w ++ t) (String.length w) = scan re (bos && negb (truthy w)) t 0.
Proof.
  revert bos; induction w as [|c w IH]; intros bos; simpl.
  - now rewrite andb_true_r.
  - rewrite IH, andb_false_r. reflexivity.
Qed.

Lemma scan_Cls (p : ascii -> bool) (bos : bool) (c : ascii) (s : string) :
  scan [Cls p] bos (String c s) 0
  = (if p c then Hit [] else Skip c) :: scan [Cls p] false s 0.
Proof.
  destruct (p c) eqn:Hc.
  - apply scan_hit with (rest := s);
      [simpl; now rewrite Hc | cbn [String.length]; lia].
  - apply scan_miss; simpl; now rewrite Hc.
Qed.

Lemma scan_Cls_end (p : ascii -> bool) (bos : bool) : scan [Cls p] bos "" 0 = [].
Proof. reflexivity. Qed.

(** The pieces of a split on a class hold no character of the class. *)
Lemma split_tokens_Cls_free (p : ascii -> bool) (bos : bool) (s : string) :
  all_chars (fun c => negb (p c)) (fst (split_tokens (scan [Cls p] bos s 0))) = true
  /\ Forall (fun w => all_chars (fun c => negb (p c)) w = true)
            (snd (split_tokens (scan [Cls p] bos s 0))).
Proof.
  revert bos; induction s as [|c s IH]; intros bos.
  - rewrite scan_Cls_end; simpl; auto.
  - rewrite scan_Cls. specialize (IH false).
    destruct (p c) eqn:Hc; cbn [split_tokens];
      destruct (split_tokens (scan [Cls p] false s 0)) as [h t]; simpl in *.
    + destruct IH; auto.
    + rewrite Hc; simpl. destruct IH; auto.
Qed.

Lemma split_re_Cls_free (p : ascii -> bool) (s : string) :
  Forall (fun w => all_chars (fun c => negb (p c)) w = true) (split_re [Cls p] s).
Proof.
  unfold split_re.
  destruct (split_tokens_Cls_free p true s) as [H1 H2].
  destruct (split_tokens (scan [Cls p] true s 0)); simpl in *; auto.
Qed.

(** A string without a character of the class is its own single piece. *)
Lemma split_re_Cls_none (p : ascii -> bool) (s : string) :
  all_chars (fun c => negb (p c)) s = true -> split_re [Cls p] s = [s].
Proof.
  intros H; unfold split_re.
  enough (E : forall bos, split_tokens (scan [Cls p] bos s 0) = (s, []))
    by now rewrite E.
  induction s as [|c s IH]; intros bos.
  - reflexivity.
  - simpl in H; apply andb_prop in H as [Hc Hs].
    rewrite scan_Cls. destruct (p c); [discriminate|].
    cbn [split_tokens]; now rewrite (IH Hs).
Qed.

Lemma split_none (s sep : string) : includes s sep = false -> split s sep = [s].
Proof.
  intros H; unfold split.
  enough (E : split_from sep s 0 = (s, [])) by now rewrite E.
  induction s as [|c s IH]; [reflexivity|].
  apply includes_cons_false in H as [H1 H2].
  cbn [split_from]; rewrite H1, (IH H2); reflexivity.
Qed.

(* ================================================================== *)
(** ** [convertTypeNameToPascalCase] *)
(* ================================================================== *)

Lemma join_empty_cons (p : string) (ps : list string) :
  join "" (p :: ps) = p ++ join "" ps.
Proof. destruct ps; simpl; [now rewrite append_nil_r | reflexivity]. Qed.

Lemma upper_char_idem (c : ascii) : upper_char (upper_char c) = upper_char c.
Proof. destruct c as [[] [] [] [] [] [] [] []]; reflexivity. Qed.

Lemma upper_char_no_dash_dot (c : ascii) :
  no_dash_dot c = true -> no_dash_dot (upper_char c) = true.
Proof. destruct c as [[] [] [] [] [] [] [] []]; intros H; exact H. Qed.

Lemma capitalize_cons (c : ascii) (w : string) :
  capitalize (String c w) = String (upper_char c) w.
Proof. reflexivity. Qed.

Lemma capitalize_free (w : string) :
  all_chars no_dash_dot w = true -> all_chars no_dash_dot (capitalize w) = true.
Proof.
  destruct w as [|c w]; [reflexivity|].
  rewrite capitalize_cons; simpl; intros H.
  apply andb_prop in H as [Hc Hw].
  now rewrite (upper_char_no_dash_dot _ Hc), Hw.
Qed.

Lemma capitalize_capitalized (w : string) : capitalized (capitalize w).
Proof.
  destruct w as [|c w]; [exact I|].
  rewrite capitalize_cons; apply upper_char_idem.
Qed.

Lemma capitalize_fixed (w : string) : capitalized w -> capitalize w = w.
Proof.
  destruct w as [|c w]; [reflexivity|].
  unfold capitalized; intros H; now rewrite capitalize_cons, H.
Qed.

Lemma join_free (ws : list string) :
  Forall (fun w => all_chars no_dash_dot w = true) ws ->
  all_chars no_dash_dot (join "" ws) = true.
Proof.
  induction 1 as [|w ws Hw _ IH]; [reflexivity|].
  now rewrite join_empty_cons, all_chars_app, Hw, IH.
Qed.

Lemma join_capitalized (ws : list string) :
  Forall capitalized ws -> capitalized (join "" ws).
Proof.
  induction 1 as [|w ws Hw _ IH]; [exact I|].
  rewrite join_empty_cons. destruct w; simpl; auto.
Qed.

Lemma convertPart_free (part : string) :
  all_chars no_dash_dot (convertPart part) = true.
Proof.
  unfold convertPart; apply join_free.
  apply Forall_map.
  eapply Forall_impl; [|apply (split_re_Cls_free is_dash_or_dot)].
  intros w Hw; now apply capitalize_free.
Qed.

Lemma convertPart_capitalized (part : string) : capitalized (convertPart part).
Proof.
  unfold convertPart; apply join_capitalized.
  apply Forall_map, Forall_forall; intros w _; apply capitalize_capitalized.
Qed.

Lemma convert_free (typeName : string) :
  all_chars no_dash_dot (convertTypeNameToPascalCase typeName) = true.
Proof.
  unfold convertTypeNameToPascalCase; apply join_free.
  apply Forall_map, Forall_forall; intros w _; apply convertPart_free.
Qed.

Lemma convert_capitalized (typeName : string) :
  capitalized (convertTypeNameToPascalCase typeName).
Proof.
  unfold convertTypeNameToPascalCase; apply join_capitalized.
  apply Forall_map, Forall_forall; intros w _; apply convertPart_capitalized.
Qed.

(** A name without dash, dot or double colon that starts with a character
    [toUpperCase] leaves alone is converted to itself. *)
Lemma convert_fixed (y : string) :
  includes y "::" = false -> all_chars no_dash_dot y = true -> capitalized y ->
  convertTypeNameToPascalCase y = y.
Proof.
  intros H1 H2 H3; unfold convertTypeNameToPascalCase.
  rewrite (split_none _ _ H1); simpl.
  unfold convertPart, dashDotRegex.
  rewrite (split_re_Cls_none is_dash_or_dot y H2); simpl.
  now apply capitalize_fixed.
Qed.

(** C9, as amended. [convertTypeNameToPascalCase] maps "api::article.article" to
    "ApiArticleArticle" and "api::tag.tag" to "ApiTagTag", and converting a
    name it has produced returns that name unchanged whenever the produced
    name holds no double colon. *)
Theorem convert_idempotent_without_double_colon :
  convertTypeNameToPascalCase "api::article.article" = "ApiArticleArticle"
  /\ convertTypeNameToPascalCase "api::tag.tag" = "ApiTagTag"
  /\ forall x,
       includes (convertTypeNameToPascalCase x) "::" = false ->
       convertTypeNameToPascalCase (convertTypeNameToPascalCase x)
       = convertTypeNameToPascalCase x.
Proof.
  split; [reflexivity|]; split; [reflexivity|].
  intros x H; apply convert_fixed;
    [exact H | apply convert_free | apply convert_capitalized].
Qed.

Lemma convert_idempotent_witness :
  convertTypeNameToPascalCase (convertTypeNameToPascalCase "plugin::users-permissions.user")
  = convertTypeNameToPascalCase "plugin::users-permissions.user".
Proof.
  apply (proj2 (proj2 convert_idempotent_without_double_colon)).
  reflexivity.
Defined.

(** C9, as stated, fails: the conversion of "a:-:b" is "A::b", which a
    second conversion turns into "AB". *)
Lemma convert_not_idempotent :
  convertTypeNameToPascalCase "a:-:b" = "A::b"
  /\ convertTypeNameToPascalCase (convertTypeNameToPascalCase "a:-:b") = "AB"
  /\ convertTypeNameToPascalCase (convertTypeNameToPascalCase "a:-:b")
     <> convertTypeNameToPascalCase "a:-:b".
Proof. repeat split; try reflexivity. vm_compute; discriminate. Qed.

(* ================================================================== *)
(** ** [transformAttributeType]: scalar markers *)
(* ================================================================== *)

(** The test of the marker [found] has succeeded: the marker [m] of the
    goal is [found], or is tested after it, or would have been found
    before. *)
Ltac decide_marker found :=
  match goal with
  | Hm : includes ?s (marker ?m) = true,
    Hfirst : forall m', rank m' < rank ?m -> _ |- _ =>
      destruct m; cbn [marker] in Hm;
      first [ reflexivity
            | congruence
            | apply (Hfirst found); [cbn [rank]; lia | assumption] ]
  end.

(** C4. A type expression that holds a scalar marker and modifiers, that
    is, no enumeration, relation or JSON marker and no scalar marker that is
    tested before it and documented with another type, is transformed to the
    primitive type documented for the marker: "string" for the string,
    email, password, text and datetime markers, "number" for the integer,
    big-integer and decimal markers, "boolean" for the boolean marker. *)
Theorem scalar_marker_documented_type (m : scalar) (s : string) :
  includes s (marker m) = true ->
  includes s "Schema.Attribute.Enumeration" = false ->
  includes s "Schema.Attribute.Relation" = false ->
  includes s "Schema.Attribute.JSON" = false ->
  (forall m', rank m' < rank m -> includes s (marker m') = true ->
              documented m' = documented m) ->
  transformAttributeType s = documented m.
Proof.
  intros Hm He Hr Hj Hfirst.
  unfold transformAttributeType; rewrite He, Hr, Hj.
  destruct (includes s "Schema.Attribute.String") eqn:E1;
    [decide_marker SString|].
  destruct (includes s "Schema.Attribute.Email") eqn:E2;
    [decide_marker SEmail|].
  destruct (includes s "Schema.Attribute.Password") eqn:E3;
    [decide_marker SPassword|].
  destruct (includes s "Schema.Attribute.Text") eqn:E4;
    [decide_marker SText|].
  destruct (includes s "Schema.Attribute.Integer") eqn:E5;
    [decide_marker SInteger|].
  destruct (includes s "Schema.Attribute.BigInteger") eqn:E6;
    [decide_marker SBigInteger|].
  destruct (includes s "Schema.Attribute.Decimal") eqn:E7;
    [decide_marker SDecimal|].
  destruct (includes s "Schema.Attribute.Boolean") eqn:E8;
    [decide_marker SBoolean|].
  destruct (includes s "Schema.Attribute.DateTime") eqn:E9;
    [decide_marker SDateTime|].
  destruct m; cbn [marker] in Hm; congruence.
Qed.

Lemma scalar_marker_witness :
  transformAttributeType
    "Schema.Attribute.BigInteger & Schema.Attribute.Required & Schema.Attribute.Unique & Schema.Attribute.DefaultTo<'7'>"
  = "number".
Proof.
  apply (scalar_marker_documented_type SBigInteger); try reflexivity.
  intros m' _; destruct m'; vm_compute; intros H; try discriminate H; reflexivity.
Defined.

(* ================================================================== *)
(** ** White space and commas *)
(* ================================================================== *)

(** Every string is a longest run of a class followed by the rest. *)
Lemma span (p : ascii -> bool) (s : string) :
  exists w t, s = w ++ t /\ all_chars p w = true /\ head_outside p t = true.
Proof.
  induction s as [|c s (w & t & -> & Hw & Ht)].
  - exists "", ""; auto.
  - destruct (p c) eqn:Hc.
    + exists (String c w), t; simpl; rewrite Hc, Hw; auto.
    + exists "", (String c (w ++ t)); simpl; rewrite Hc; auto.
Qed.

Lemma collapse_run (w t : string) :
  all_chars is_space w = true -> collapse_from true (w ++ t) = collapse_from true t.
Proof.
  induction w as [|c w IH]; simpl; [reflexivity|].
  intros H; apply andb_prop in H as [Hc Hw]; rewrite Hc; auto.
Qed.

Lemma collapse_after_run (t : string) :
  head_outside is_space t = true -> collapse_from true t = collapse_from false t.
Proof.
  destruct t as [|c t]; simpl; [reflexivity|].
  destruct (is_space c); [discriminate | reflexivity].
Qed.

Lemma collapse_space_prefix (w t : string) :
  all_chars is_space w = true -> head_outside is_space t = true ->
  collapse_from false (w ++ t)
  = (if truthy w then " " else "") ++ collapse_from false t.
Proof.
  intros Hw Ht; destruct w as [|c w]; [reflexivity|].
  simpl in *; apply andb_prop in Hw as [Hc Hw]; rewrite Hc.
  now rewrite (collapse_run _ _ Hw), (collapse_after_run _ Ht).
Qed.

Lemma replace_spaces_collapse (s : string) :
  replace_all spacesRegex " " s = collapse s.
Proof.
  unfold replace_all, collapse.
  enough (E : forall n s bos, String.length s <= n ->
            replace_tokens " " (scan spacesRegex bos s 0) = collapse_from false s)
    by (apply (E (String.length s)); lia).
  clear s; induction n as [|n IH]; intros [|c s] bos L; simpl in L;
    try reflexivity; try lia.
  destruct (is_space c) eqn:Hc.
  - destruct (span is_space s) as (w & t & -> & Hw & Ht).
    rewrite (scan_hit spacesRegex bos c (w ++ t) [] t (String.length w)).
    + rewrite (scan_skip spacesRegex false w t).
      cbn [replace_tokens andb]; rewrite IH.
      * change (String c (w ++ t)) with (String c w ++ t).
        rewrite collapse_space_prefix; simpl; auto; now rewrite Hc, Hw.
      * rewrite length_append in L; lia.
    + change (String c (w ++ t)) with (String c w ++ t).
      apply (match_here_Plus false is_space []); simpl; auto; now rewrite Hc, Hw.
    + cbn [String.length]; rewrite length_append; lia.
  - rewrite scan_miss; [|simpl; now rewrite Hc].
    cbn [replace_tokens collapse_from]; rewrite Hc, IH; [reflexivity | lia].
Qed.

Lemma bars_run (w t : string) :
  all_chars is_space w = true -> bars_from true (w ++ t) = bars_from true t.
Proof.
  induction w as [|c w IH]; simpl; [reflexivity|].
  intros H; apply andb_prop in H as [Hc Hw]; rewrite Hc; auto.
Qed.

Lemma bars_after_run (t : string) :
  head_outside is_space t = true -> bars_from true t = bars_from false t.
Proof.
  destruct t as [|c t]; simpl; [reflexivity|].
  destruct (is_space c); [discriminate | reflexivity].
Qed.

Lemma replace_commas_bars (s : string) :
  replace_all commaRegex " | " s = bars s.
Proof.
  unfold replace_all, bars.
  enough (E : forall n s bos, String.length s <= n ->
            replace_tokens " | " (scan commaRegex bos s 0) = bars_from false s)
    by (apply (E (String.length s)); lia).
  clear s; induction n as [|n IH]; intros [|c s] bos L; simpl in L;
    try reflexivity; try lia.
  destruct (Ascii.eqb_spec "," c) as [<-|Hc].
  - destruct (span is_space s) as (w & t & -> & Hw & Ht).
    rewrite (scan_hit commaRegex bos "," (w ++ t) [] t (String.length w)).
    + rewrite (scan_skip commaRegex false w t).
      cbn [replace_tokens andb]; rewrite IH.
      * cbn [bars_from andb chr]; simpl (Ascii.eqb _ _).
        now rewrite (bars_run _ _ Hw), (bars_after_run _ Ht).
      * rewrite length_append in L; lia.
    + change (String "," (w ++ t)) with ("," ++ w ++ t).
      unfold commaRegex; rewrite match_here_Str.
      apply (match_here_Star false is_space []); auto.
    + cbn [String.length]; rewrite length_append; lia.
  - assert (Hc' : Ascii.eqb "," c = false) by now apply Ascii.eqb_neq.
    rewrite scan_miss.
    + cbn [replace_tokens bars_from andb chr]; unfold chr; rewrite Hc', IH;
        [reflexivity | lia].
    + apply match_here_Str_fail; unfold startsWith; cbn [strip_prefix];
        now rewrite Hc'.
Qed.

(* ================================================================== *)
(** ** [transformAttributeType]: enumerations *)
(* ================================================================== *)

Lemma enumRegex_here (bos : bool) (ws1 body ws2 post : string) :
  all_chars is_space ws1 = true -> all_chars is_space ws2 = true ->
  truthy body = true -> all_chars (not_chr "]") body = true ->
  match_here enumRegex bos
    ("Enumeration<" ++ ws1 ++ "[" ++ body ++ "]" ++ ws2 ++ ">" ++ post)
  = Some ([body], post).
Proof.
  intros H1 H2 H3 H4; unfold enumRegex.
  rewrite match_here_Str.
  apply (match_here_Star false); auto.
  rewrite match_here_Str.
  apply (match_here_Plus true); auto.
  rewrite match_here_Str.
  apply (match_here_Star false); auto.
Qed.

Lemma enumRegex_sound (bos : bool) (u : string) (caps : list string) (rest : string) :
  match_here enumRegex bos u = Some (caps, rest) ->
  exists body, enumeration_at u "" body /\ caps = [body].
Proof.
  intros H; apply match_here_sound in H; simpl in H.
  destruct H as (t1 & -> & ws1 & t2 & caps1 & -> & Hws1 & _ & H & ->).
  destruct H as (t3 & -> & body & t4 & caps2 & -> & Hbody & Hlen & H & ->).
  destruct H as (t5 & -> & ws2 & t6 & caps3 & -> & Hws2 & _ & H & ->).
  destruct H as (t7 & -> & -> & ->).
  exists body; split; [|reflexivity].
  exists ws1, ws2, t7; repeat split; auto.
  now apply truthy_length.
Qed.

Lemma enumeration_at_shift (a u pre body : string) :
  enumeration_at u pre body -> enumeration_at (a ++ u) (a ++ pre) body.
Proof.
  intros (ws1 & ws2 & post & -> & H); exists ws1, ws2, post; split; auto.
  now rewrite append_assoc.
Qed.

Lemma exec_enumRegex_leftmost (s pre body : string) :
  leftmost_enumeration s pre body -> exec enumRegex s = Some [body].
Proof.
  intros [(ws1 & ws2 & post & -> & H1 & H2 & H3 & H4) Hleft].
  unfold exec.
  rewrite (search_found enumRegex true pre _ [body] post); [reflexivity| |].
  - intros a b -> Hb.
    destruct (match_here enumRegex _ _) as [[caps rest]|] eqn:E; [|reflexivity].
    apply enumRegex_sound in E as (body' & Hat & _).
    apply (enumeration_at_shift a) in Hat; simpl in Hat.
    rewrite append_nil_r, <- append_assoc in Hat.
    apply Hleft in Hat. rewrite length_append in Hat.
    apply truthy_length in Hb; lia.
  - now apply enumRegex_here.
Qed.

Lemma exec_enumRegex_Some (s : string) (caps : list string) :
  exec enumRegex s = Some caps -> exists pre body, enumeration_at s pre body.
Proof.
  unfold exec.
  destruct (search enumRegex true s) as [[[pre caps'] rest]|] eqn:E; [|discriminate].
  intros _. apply search_sound in E as (t & -> & E).
  apply enumRegex_sound in E as (body & Hat & _).
  apply (enumeration_at_shift pre) in Hat; simpl in Hat.
  rewrite append_nil_r in Hat. eauto.
Qed.

(** An enumeration found at the first occurrence of "Enumeration<" is the
    leftmost one. *)
Lemma leftmost_enumeration_indexOf (s pre body : string) :
  enumeration_at s pre body ->
  indexOf s "Enumeration<" = Some (String.length pre) ->
  leftmost_enumeration s pre body.
Proof.
  intros Hat Hidx; split; [exact Hat|].
  intros pre' body' (ws1 & ws2 & post & -> & _).
  destruct (indexOf_least pre' "Enumeration<"
              (ws1 ++ "[" ++ body' ++ "]" ++ ws2 ++ ">" ++ post)) as (n & Hn & Hle).
  rewrite Hn in Hidx; inversion Hidx; lia.
Qed.

Lemma abc_list_union (w0 w1 w2 w3 : string) :
  all_chars is_space w0 = true -> all_chars is_space w1 = true ->
  all_chars is_space w2 = true -> all_chars is_space w3 = true ->
  trim (bars (collapse (abc_list w0 w1 w2 w3))) = abc_union.
Proof.
  intros H0 H1 H2 H3; unfold abc_list, collapse.
  rewrite <- (append_nil_r w3).
  rewrite (collapse_space_prefix w0); auto.
  cbn [DQ append collapse_from is_space in_range code N_of_ascii N.leb N.eqb
       N.compare Pos.compare Pos.compare_cont andb orb Pos.eqb N.add N.mul].
  rewrite (collapse_space_prefix w1); auto.
  cbn [DQ append collapse_from is_space in_range code N_of_ascii N.leb N.eqb
       N.compare Pos.compare Pos.compare_cont andb orb Pos.eqb N.add N.mul].
  rewrite (collapse_space_prefix w2); auto.
  cbn [DQ append collapse_from is_space in_range code N_of_ascii N.leb N.eqb
       N.compare Pos.compare Pos.compare_cont andb orb Pos.eqb N.add N.mul].
  rewrite (collapse_space_prefix w3); auto.
  destruct (truthy w0), (truthy w1), (truthy w2), (truthy w3); reflexivity.
Qed.

(** C5. In a type expression that holds the enumeration marker, the
    leftmost text of the shape "Enumeration<", white space, a bracketed
    literal list, white space, ">" decides the result: it is the literal
    list with its runs of white space collapsed to single spaces and each
    comma with the white space after it replaced by the union separator,
    trimmed.  In particular the list of "a", "b" and "c", on one line or
    split over several lines with any indentation, gives the union of the
    three literals.  When no text of that shape is found the result is
    "string". *)
Theorem enumeration_union (s : string) :
  includes s "Schema.Attribute.Enumeration" = true ->
  (forall pre body,
     leftmost_enumeration s pre body ->
     transformAttributeType s = trim (bars (collapse body))
     /\ forall w0 w1 w2 w3,
          all_chars is_space w0 = true -> all_chars is_space w1 = true ->
          all_chars is_space w2 = true -> all_chars is_space w3 = true ->
          body = abc_list w0 w1 w2 w3 ->
          transformAttributeType s = abc_union)
  /\ ((forall pre body, ~ enumeration_at s pre body) ->
      transformAttributeType s = "string").
Proof.
  intros Hm; split.
  - intros pre body Hleft.
    assert (E : transformAttributeType s = trim (bars (collapse body))).
    { unfold transformAttributeType; rewrite Hm.
      rewrite (exec_enumRegex_leftmost _ _ _ Hleft).
      destruct Hleft as [(ws1 & ws2 & post & _ & _ & _ & Hb & _) _].
      cbn [group Nat.sub nth]; rewrite Hb.
      now rewrite replace_spaces_collapse, replace_commas_bars. }
    split; [exact E|].
    intros w0 w1 w2 w3 H0 H1 H2 H3 ->.
    rewrite E; now apply abc_list_union.
  - intros Hnone; unfold transformAttributeType; rewrite Hm.
    destruct (exec enumRegex s) as [caps|] eqn:E; [|reflexivity].
    apply exec_enumRegex_Some in E as (pre & body & Hat).
    now destruct (Hnone pre body).
Qed.

Lemma enumeration_union_witness :
  transformAttributeType enumeration_sample = abc_union.
Proof.
  destruct (enumeration_union enumeration_sample eq_refl) as [H _].
  destruct (H "Schema.Attribute."
              (abc_list (LF ++ "        ") (LF ++ "        ")
                        (LF ++ "        ") (LF ++ "      "))) as [_ H2].
  - apply leftmost_enumeration_indexOf; [|reflexivity].
    exists (LF ++ "      "), (LF ++ "    "), " & Schema.Attribute.Required".
    repeat split; reflexivity.
  - apply (H2 (LF ++ "        ") (LF ++ "        ") (LF ++ "        ")
              (LF ++ "      ")); reflexivity.
Defined.

(* ================================================================== *)
(** ** [transformAttributeType]: relations *)
(* ================================================================== *)









(* ================================================================== *)
(** ** Loops on fuel *)
(* ================================================================== *)

Section While.

Context {St : Type}.
Variable cond : St -> bool.

Lemma while_leave (fuel : nat) (body : St -> option St) (st : St) :
  cond st = false -> while fuel cond body st = Some st.
Proof. intros H; destruct fuel; simpl; now rewrite H. Qed.

Lemma while_turn (fuel : nat) (body : St -> option St) (st st' : St) :
  cond st = true -> body st = Some st' ->
  while (S fuel) cond body st = while fuel cond body st'.
Proof. intros H E; simpl; now rewrite H, E. Qed.

(** A loop that has left has left with its condition false, and with
    whatever its turns preserve. *)
Lemma while_invariant (Inv : St -> Prop) (body : St -> option St) :
  (forall st st', Inv st -> cond st = true -> body st = Some st' -> Inv st') ->
  forall fuel st r,
    Inv st -> while fuel cond body st = Some r -> Inv r /\ cond r = false.
Proof.
  intros Hstep; induction fuel as [|fuel IH]; intros st r Hst; simpl;
    destruct (cond st) eqn:Hc; try discriminate;
    try (intros H; inversion H; subst; auto; fail).
  destruct (body st) as [st'|] eqn:Hb; [|discriminate].
  apply IH; eauto.
Qed.

(** A loop each turn of which lowers a measure leaves within as many
    turns as the measure counts. *)
Lemma while_terminates (Inv : St -> Prop) (mu : St -> nat)
  (body : St -> option St) :
  (forall st, Inv st -> cond st = true ->
              exists st', body st = Some st' /\ Inv st' /\ mu st' < mu st) ->
  forall fuel st,
    Inv st -> mu st <= fuel -> exists r, while fuel cond body st = Some r.
Proof.
  intros Hstep; induction fuel as [|fuel IH]; intros st Hst Hmu; simpl;
    destruct (cond st) eqn:Hc; eauto;
    destruct (Hstep st Hst Hc) as (st' & Hb & Hst' & Hlt).
  - lia.
  - rewrite Hb; apply IH; auto; lia.
Qed.

(** More fuel, and a body that returns at least as often, change nothing
    in the outcome of a loop that has left. *)
Lemma while_more_fuel (body body' : St -> option St) :
  (forall st st', body st = Some st' -> body' st = Some st') ->
  forall fuel fuel' st r,
    fuel <= fuel' -> while fuel cond body st = Some r ->
    while fuel' cond body' st = Some r.
Proof.
  intros Hb; induction fuel as [|fuel IH]; intros fuel' st r Hle; simpl;
    destruct (cond st) eqn:Hc; try discriminate;
    try (intros H; inversion H; subst; now apply while_leave).
  destruct (body st) as [st'|] eqn:E; [|discriminate].
  destruct fuel' as [|fuel']; [lia|].
  intros H; rewrite (while_turn _ _ _ st' Hc (Hb _ _ E)).
  apply IH; auto; lia.
Qed.

(** The state a loop with a total body leaves with is reached by
    iterating the body, at the first iteration that falsifies the
    condition. *)
Lemma while_iter (f : St -> St) :
  forall fuel st r,
    while fuel cond (fun s => Some (f s)) st = Some r ->
    exists k, r = Nat.iter k f st /\ cond r = false
              /\ forall j, j < k -> cond (Nat.iter j f st) = true.
Proof.
  induction fuel as [|fuel IH]; intros st r; simpl;
    destruct (cond st) eqn:Hc; try discriminate;
    try (intros H; inversion H; subst; exists 0; repeat split; auto;
         intros; lia).
  intros H; destruct (IH _ _ H) as (k & -> & Hr & Hj).
  exists (S k); rewrite Nat.iter_succ_r; repeat split; auto.
  intros [|j] Hlt; [exact Hc|].
  rewrite Nat.iter_succ_r; apply Hj; lia.
Qed.

End While.

(** Two loops whose states stay related, whose conditions agree on related
    states and whose bodies return together, leave together, with related
    states. *)
Lemma while_simulation {A B : Type} (R : A -> B -> Prop)
  (condA : A -> bool) (condB : B -> bool)
  (bodyA : A -> option A) (bodyB : B -> option B) :
  (forall a b, R a b -> condA a = condB b) ->
  (forall a b, R a b -> condA a = true ->
     match bodyA a, bodyB b with
     | Some a', Some b' => R a' b'
     | None, None => True
     | _, _ => False
     end) ->
  forall fuel a b, R a b ->
    match while fuel condA bodyA a, while fuel condB bodyB b with
    | Some a', Some b' => R a' b'
    | None, None => True
    | _, _ => False
    end.
Proof.
  intros Hcond Hbody; induction fuel as [|fuel IH]; intros a b HR; simpl;
    rewrite <- (Hcond _ _ HR); destruct (condA a) eqn:Hc; auto.
  specialize (Hbody _ _ HR Hc).
  destruct (bodyA a), (bodyB b); try contradiction; auto.
  now apply IH.
Qed.

(* ================================================================== *)
(** ** Counting brackets *)
(* ================================================================== *)

Lemma scan_char (x : ascii) (bos : bool) (c : ascii) (s : string) :
  scan [Str (String x "")] bos (String c s) 0
  = (if Ascii.eqb x c then Hit [] else Skip c) :: scan [Str (String x "")] false s 0.
Proof.
  destruct (Ascii.eqb x c) eqn:E.
  - apply scan_hit with (rest := s);
      [cbn [match_here strip_prefix]; now rewrite E | cbn [String.length]; lia].
  - apply scan_miss; cbn [match_here strip_prefix]; now rewrite E.
Qed.

Lemma hits_char_bos (x : ascii) (bos : bool) (s : string) :
  hits (scan [Str (String x "")] bos s 0) = hits (scan [Str (String x "")] false s 0).
Proof. destruct s as [|c s]; [reflexivity | now rewrite !scan_char]. Qed.

Lemma hits_char_app (x : ascii) (bos : bool) (a b : string) :
  hits (scan [Str (String x "")] bos (a ++ b) 0)
  = hits (scan [Str (String x "")] bos a 0) + hits (scan [Str (String x "")] false b 0).
Proof.
  revert bos; induction a as [|c a IH]; intros bos.
  - simpl; apply hits_char_bos.
  - cbn [append]; rewrite !scan_char.
    unfold hits in *; destruct (Ascii.eqb x c); cbn [filter List.length];
      rewrite IH; reflexivity.
Qed.

Lemma occurrences_app (x : ascii) (a b : string) :
  occurrences (String x "") (a ++ b)
  = (occurrences (String x "") a + occurrences (String x "") b)%Z.
Proof.
  unfold occurrences, match_count; fold (hits (scan [Str (String x "")] true (a ++ b) 0)).
  fold (hits (scan [Str (String x "")] true a 0)).
  fold (hits (scan [Str (String x "")] true b 0)).
  rewrite hits_char_app, (hits_char_bos x true b); lia.
Qed.

Lemma net_app (x y : ascii) (a b : string) :
  net (String x "") (String y "") (a ++ b)
  = (net (String x "") (String y "") a + net (String x "") (String y "") b)%Z.
Proof. unfold net; rewrite !occurrences_app; lia. Qed.

(** Appending a line after a space adds the net count of the line. *)
Lemma net_append_line (x y : ascii) (t l : string) :
  Ascii.eqb x " " = false -> Ascii.eqb y " " = false ->
  net (String x "") (String y "") (t ++ " " ++ l)
  = (net (String x "") (String y "") t + net (String x "") (String y "") l)%Z.
Proof.
  intros Hx Hy; rewrite !net_app.
  assert (E : net (String x "") (String y "") " " = 0%Z).
  { unfold net, occurrences, match_count.
    rewrite !scan_char, Hx, Hy; reflexivity. }
  rewrite E; lia.
Qed.

(* ================================================================== *)
(** ** The continuation loop *)
(* ================================================================== *)

Lemma accumulate_snoc (t0 : string) (ls : list string) (l : string) :
  accumulate t0 (ls ++ [l]) = accumulate t0 ls ++ " " ++ l.
Proof. unfold accumulate; now rewrite fold_left_app. Qed.

Lemma firstn_succ_nth {A : Type} (d : A) (k : nat) (l : list A) :
  k < List.length l -> firstn (S k) l = (firstn k l ++ [nth k l d])%list.
Proof.
  revert k; induction l as [|x l IH]; intros k H; simpl in H; [lia|].
  destruct k as [|k]; [reflexivity|].
  cbn [firstn nth app]; rewrite <- IH; [reflexivity | lia].
Qed.

Lemma nth_skipn_add {A : Type} (d : A) (n k : nat) (l : list A) :
  nth k (skipn n l) d = nth (n + k) l d.
Proof.
  revert l; induction n as [|n IH]; intros l; [reflexivity|].
  destruct l as [|x l]; simpl; [now destruct k | apply IH].
Qed.

Lemma reading_after_succ (lines : list string) (index : nat) (t0 : string) (k : nat) :
  reading_after lines index t0 (S k)
  = append_line lines (reading_after lines index t0 k).
Proof. reflexivity. Qed.

Lemma reading_after_i (lines : list string) (index : nat) (t0 : string) (k : nat) :
  i (reading_after lines index t0 k) = S index + k.
Proof.
  induction k as [|k IH]; [simpl; lia|].
  rewrite reading_after_succ; cbn [append_line i]; rewrite IH; lia.
Qed.

Lemma reading_after_attrType (lines : list string) (index : nat) (t0 : string) (k : nat) :
  S index + k <= List.length lines ->
  attrType (reading_after lines index t0 k)
  = accumulate t0 (firstn k (skipn (S index) lines)).
Proof.
  induction k as [|k IH]; intros H; [reflexivity|].
  rewrite reading_after_succ; cbn [append_line attrType].
  rewrite reading_after_i, IH by lia.
  rewrite (firstn_succ_nth EmptyString) by (rewrite length_skipn; lia).
  now rewrite accumulate_snoc, nth_skipn_add.
Qed.

(** The running counts are the net counts of the accumulated text. *)
Lemma reading_after_counts (lines : list string) (index : nat) (t0 : string) (k : nat) :
  let r := reading_after lines index t0 k in
  openAngle r = net "<" ">" (attrType r)
  /\ openBrace r = net "{" "}" (attrType r)
  /\ openBracket r = net "[" "]" (attrType r).
Proof.
  induction k as [|k (H1 & H2 & H3)]; [repeat split|].
  cbn zeta in *; rewrite reading_after_succ.
  cbn [append_line attrType openAngle openBrace openBracket].
  rewrite H1, H2, H3, !net_append_line by reflexivity; auto.
Qed.

Lemma still_open (e : bool) (a b c : Z) :
  negb e || (a >? 0)%Z || (b >? 0)%Z || (c >? 0)%Z
  = negb (e && (a <=? 0)%Z && (b <=? 0)%Z && (c <=? 0)%Z).
Proof.
  rewrite !Z.gtb_ltb, !Z.ltb_antisym.
  destruct e, (a <=? 0)%Z, (b <=? 0)%Z, (c <=? 0)%Z; reflexivity.
Qed.

Lemma unfinished_complete (lines : list string) (r : reading) :
  openAngle r = net "<" ">" (attrType r) ->
  openBrace r = net "{" "}" (attrType r) ->
  openBracket r = net "[" "]" (attrType r) ->
  unfinished lines r = (i r <? List.length lines)%nat && negb (complete (attrType r)).
Proof.
  intros H1 H2 H3; unfold unfinished, complete; rewrite H1, H2, H3.
  now rewrite still_open.
Qed.

Lemma continuation_iter (fuel : nat) (lines : list string) (index : nat)
  (t0 : string) (r : reading) :
  S index <= List.length lines ->
  continuation fuel lines index t0 = Some r ->
  exists k,
    r = reading_after lines index t0 k
    /\ S index + k <= List.length lines
    /\ (complete (attrType r) = true \/ S index + k = List.length lines)
    /\ forall j, j < k ->
         complete (attrType (reading_after lines index t0 j)) = false.
Proof.
  intros Hidx H; apply while_iter in H as (k & -> & Hstop & Hgo).
  fold (reading_after lines index t0 k) in *.
  assert (Hun : forall j, unfinished lines (reading_after lines index t0 j)
                = (S index + j <? List.length lines)%nat
                  && negb (complete (attrType (reading_after lines index t0 j)))).
  { intros j; destruct (reading_after_counts lines index t0 j) as (H1 & H2 & H3).
    now rewrite unfinished_complete, reading_after_i. }
  assert (Hk : S index + k <= List.length lines).
  { destruct k as [|k]; [lia|].
    specialize (Hgo k (Nat.lt_succ_diag_r k)).
    fold (reading_after lines index t0 k) in Hgo.
    rewrite Hun in Hgo; apply andb_prop in Hgo as [Hlt _].
    apply Nat.ltb_lt in Hlt; lia. }
  exists k; repeat split; auto.
  - rewrite Hun in Hstop; apply andb_false_iff in Hstop as [Hge | Hc].
    + apply Nat.ltb_ge in Hge; right; lia.
    + left; now destruct (complete _).
  - intros j Hj; specialize (Hgo j Hj).
    fold (reading_after lines index t0 j) in Hgo.
    rewrite Hun in Hgo; apply andb_prop in Hgo as [_ Hc].
    now destruct (complete _).
Qed.

Lemma continuation_total (fuel : nat) (lines : list string) (index : nat)
  (t0 : string) :
  List.length lines - S index <= fuel ->
  exists r, continuation fuel lines index t0 = Some r.
Proof.
  intros Hfuel; unfold continuation.
  apply (while_terminates (unfinished lines) (fun _ => True)
           (fun r => List.length lines - i r)); auto.
  intros st _ Hc; eexists; split; [reflexivity|]; split; [exact I|].
  unfold unfinished in Hc; apply andb_prop in Hc as [Hlt _].
  apply Nat.ltb_lt in Hlt; cbn [append_line i]; lia.
Qed.

(* ================================================================== *)
(** ** Trimmed lines *)
(* ================================================================== *)

Lemma trimEnd_idem (s : string) : trimEnd (trimEnd s) = trimEnd s.
Proof.
  induction s as [|c s IH]; [reflexivity|].
  cbn [trimEnd]; cbv zeta.
  destruct (is_space c && negb (truthy (trimEnd s))) eqn:E; [reflexivity|].
  cbn [trimEnd]; cbv zeta; now rewrite IH, E.
Qed.

Lemma trimEnd_head (s : string) :
  head_outside is_space s = true -> head_outside is_space (trimEnd s) = true.
Proof.
  destruct s as [|c s]; [reflexivity|].
  cbn [head_outside trimEnd]; cbv zeta; intros H.
  apply negb_true_iff in H; rewrite H; cbn [andb head_outside]; now rewrite H.
Qed.

Lemma trimStart_head (s : string) : head_outside is_space (trimStart s) = true.
Proof.
  induction s as [|c s IH]; [reflexivity|].
  cbn [trimStart]; destruct (is_space c) eqn:E; [exact IH|].
  cbn [head_outside]; now rewrite E.
Qed.

Lemma trimStart_fixed (s : string) :
  head_outside is_space s = true -> trimStart s = s.
Proof.
  destruct s as [|c s]; [reflexivity|].
  cbn [head_outside trimStart]; intros H.
  apply negb_true_iff in H; now rewrite H.
Qed.

Lemma trim_idem (s : string) : trim (trim s) = trim s.
Proof.
  unfold trim.
  rewrite (trimStart_fixed (trimEnd (trimStart s)))
    by apply trimEnd_head, trimStart_head.
  apply trimEnd_idem.
Qed.

(** The lines [parseAttributes] scans are trimmed and not blank. *)
Lemma lines_of_trimmed (attributesContent : string) :
  Forall (fun l => truthy l = true /\ trim l = l) (lines_of attributesContent).
Proof.
  apply Forall_forall; intros l Hl.
  apply filter_In in Hl as [Hin Ht]; split; [exact Ht|].
  apply in_map_iff in Hin as (raw & <- & _); apply trim_idem.
Qed.

(* ================================================================== *)
(** ** [parseAttributes] *)
(* ================================================================== *)

(** C2, as amended. For every attribute sub-block and every line of it
    that starts an attribute, the continuation loop returns; it has then
    appended [k] of the following lines, which are trimmed and not blank,
    each after a single space; its three running counts are the net counts
    of opening minus closing brackets of the accumulated text, kind by
    kind; and [k] is the first number of lines at which the accumulated
    text ends with a semicolon and none of the three net counts is positive
    (a count may be negative), or the number of lines left when there is no
    such point before the end of the input.  The turn of the outer loop
    resumes after these lines, with the record of the accumulated text
    unless it is private. *)
Theorem continuation_reads_until_complete (attributesContent : string)
  (index : nat) (attrName attrType0 : string) :
  let lines := lines_of attributesContent in
  index < List.length lines ->
  attribute_start (nth index lines EmptyString) = Some (attrName, attrType0) ->
  Forall (fun l => truthy l = true /\ trim l = l) lines
  /\ exists k r,
       continuation (List.length lines) lines index attrType0 = Some r
       /\ S index + k <= List.length lines
       /\ i r = S index + k
       /\ attrType r = accumulate attrType0 (firstn k (skipn (S index) lines))
       /\ openAngle r = net "<" ">" (attrType r)
       /\ openBrace r = net "{" "}" (attrType r)
       /\ openBracket r = net "[" "]" (attrType r)
       /\ (complete (attrType r) = true \/ S index + k = List.length lines)
       /\ (forall j, j < k ->
             complete (accumulate attrType0 (firstn j (skipn (S index) lines)))
             = false)
       /\ forall attributes,
            parse_step (List.length lines) lines (index, attributes)
            = Some (S index + k,
                    (attributes
                     ++ map record_of
                          (filter (fun d => negb (is_private d))
                                  [(attrName, clean (attrType r))]))%list).
Proof.
  intros lines Hidx Hstart; split; [apply lines_of_trimmed|].
  destruct (continuation_total (List.length lines) lines index attrType0)
    as [r Hr]; [lia|].
  destruct (continuation_iter _ _ _ _ _ Hidx Hr) as (k & -> & Hk & Hstop & Hgo).
  destruct (reading_after_counts lines index attrType0 k) as (H1 & H2 & H3).
  exists k, (reading_after lines index attrType0 k).
  split; [exact Hr|]. split; [exact Hk|].
  split; [apply reading_after_i|].
  split; [now apply reading_after_attrType|].
  split; [exact H1|]. split; [exact H2|]. split; [exact H3|].
  split; [exact Hstop|].
  split.
  - intros j Hj; rewrite <- reading_after_attrType by lia; now apply Hgo.
  - intros attributes; unfold parse_step; fold lines; rewrite Hstart, Hr.
    rewrite reading_after_i.
    cbn [filter]; unfold is_private; cbn [snd].
    destruct (includes (clean (attrType (reading_after lines index attrType0 k)))
                "Schema.Attribute.Private");
      cbn [negb map]; [now rewrite List.app_nil_r | reflexivity].
Qed.

Lemma continuation_reads_until_complete_witness :
  let lines := lines_of continuation_sample in
  Forall (fun l => truthy l = true /\ trim l = l) lines
  /\ exists k r,
       continuation (List.length lines) lines 0
         "Schema.Attribute.Enumeration<" = Some r
       /\ 1 + k <= List.length lines
       /\ i r = 1 + k
       /\ attrType r
          = accumulate "Schema.Attribute.Enumeration<" (firstn k (skipn 1 lines))
       /\ openAngle r = net "<" ">" (attrType r)
       /\ openBrace r = net "{" "}" (attrType r)
       /\ openBracket r = net "[" "]" (attrType r)
       /\ (complete (attrType r) = true \/ 1 + k = List.length lines)
       /\ (forall j, j < k ->
             complete (accumulate "Schema.Attribute.Enumeration<"
                         (firstn j (skipn 1 lines)))
             = false)
       /\ forall attributes,
            parse_step (List.length lines) lines (0, attributes)
            = Some (1 + k,
                    (attributes
                     ++ map record_of
                          (filter (fun d => negb (is_private d))
                                  [("status", clean (attrType r))]))%list).
Proof.
  apply (continuation_reads_until_complete continuation_sample 0 "status").
  - vm_compute; lia.
  - reflexivity.
Defined.

(** C2, as stated, fails: on the two lines "arrow: b>;" and "next: c<;" the
    loop leaves at once, before the end of the input, with a net count of
    angle brackets of -1, which is not the point of the specification; that
    point comes one line later. *)
Lemma continuation_leaves_on_negative_count :
  let lines := lines_of negative_count_sample in
  attribute_start (nth 0 lines EmptyString) = Some ("arrow", "b>;")
  /\ exists r,
       continuation (List.length lines) lines 0 "b>;" = Some r
       /\ i r = 1 /\ i r < List.length lines
       /\ attrType r = "b>;"
       /\ net "<" ">" (attrType r) = (-1)%Z
       /\ balanced_spec (attrType r) = false
       /\ balanced_spec (accumulate "b>;" (firstn 1 (skipn 1 lines))) = true.
Proof.
  split; [reflexivity|].
  eexists; split; [reflexivity|].
  repeat split; try reflexivity. vm_compute; lia.
Qed.

Lemma parse_step_progress (fuel : nat) (lines : list string) (index : nat)
  (attrs : list Attribute) (st' : nat * list Attribute) :
  index < List.length lines ->
  parse_step fuel lines (index, attrs) = Some st' ->
  index < fst st' <= List.length lines.
Proof.
  intros Hidx; unfold parse_step.
  destruct (attribute_start _) as [[attrName attrType0]|];
    [|intros H; inversion H; simpl; lia].
  destruct (continuation fuel lines index attrType0) as [r|] eqn:E; [|discriminate].
  apply (while_invariant (unfinished lines)
           (fun r => S index <= i r <= List.length lines)) in E as [Hi _].
  - destruct (includes _ _); intros H; inversion H; simpl; lia.
  - intros st st1 Hst Hc H; inversion H; subst.
    unfold unfinished in Hc; apply andb_prop in Hc as [Hlt _].
    apply Nat.ltb_lt in Hlt; cbn [append_line i]; lia.
  - cbn [start_reading i]; lia.
Qed.

Lemma parse_step_total (fuel : nat) (lines : list string) (index : nat)
  (attrs : list Attribute) :
  List.length lines - S index <= fuel ->
  exists st', parse_step fuel lines (index, attrs) = Some st'.
Proof.
  intros Hfuel; unfold parse_step.
  destruct (attribute_start _) as [[attrName attrType0]|]; [|eauto].
  destruct (continuation_total fuel lines index attrType0 Hfuel) as [r ->].
  destruct (includes _ _); eauto.
Qed.

Lemma parse_lines_total (lines : list string) :
  exists attrs, parse_lines (List.length lines) lines = Some attrs.
Proof.
  unfold parse_lines.
  destruct (while_terminates
              (fun st : nat * list Attribute => (fst st <? List.length lines)%nat)
              (fun _ => True) (fun st => List.length lines - fst st)
              (parse_step (List.length lines) lines)) with
    (fuel := List.length lines) (st := (0, @nil Attribute)) as [r ->];
    simpl; eauto; try lia.
  intros [index attrs] _ Hc; apply Nat.ltb_lt in Hc; simpl in Hc.
  destruct (parse_step_total (List.length lines) lines index attrs) as [st' E];
    [lia|].
  exists st'; split; [exact E|]; split; [exact I|].
  apply parse_step_progress in E; simpl; lia.
Qed.

Lemma parseAttributes_total (attributesContent : string) :
  exists attrs, parseAttributes attributesContent = Some attrs.
Proof. apply parse_lines_total. Qed.

Lemma parse_step_more_fuel (fuel fuel' : nat) (lines : list string)
  (st st' : nat * list Attribute) :
  fuel <= fuel' ->
  parse_step fuel lines st = Some st' -> parse_step fuel' lines st = Some st'.
Proof.
  intros Hle; destruct st as [index attrs]; unfold parse_step.
  destruct (attribute_start _) as [[attrName attrType0]|]; [|auto].
  destruct (continuation fuel lines index attrType0) as [r|] eqn:E; [|discriminate].
  unfold continuation in *.
  now rewrite (while_more_fuel _ _ _ (fun _ _ H => H) _ _ _ _ Hle E).
Qed.

(** C10. [parseAttributes] returns on every input. A turn of the
    continuation loop moves the scan index by exactly one line; a turn of
    the outer loop moves it strictly forward, never past the number of
    lines, and itself returns; so the fuel of one turn per non-blank line
    is enough for the whole function, and more fuel gives the same
    result. *)
Theorem parseAttributes_terminates :
  (forall lines r, i (append_line lines r) = S (i r))
  /\ (forall fuel lines index attrs st',
        index < List.length lines ->
        parse_step fuel lines (index, attrs) = Some st' ->
        index < fst st' <= List.length lines)
  /\ (forall lines index attrs,
        index < List.length lines ->
        exists st', parse_step (List.length lines) lines (index, attrs) = Some st')
  /\ (forall attributesContent,
        exists attrs, parseAttributes attributesContent = Some attrs)
  /\ (forall attributesContent fuel,
        List.length (lines_of attributesContent) <= fuel ->
        parse_lines fuel (lines_of attributesContent)
        = parseAttributes attributesContent).
Proof.
  split; [reflexivity|].
  split; [apply parse_step_progress|].
  split; [intros; apply parse_step_total; lia|].
  split; [apply parseAttributes_total|].
  intros content fuel Hle.
  destruct (parseAttributes_total content) as [attrs E]; rewrite E.
  unfold parseAttributes, parse_lines in *; cbv zeta in E.
  destruct (while (List.length (lines_of content)) _ _ _) as [st|] eqn:W;
    [|discriminate].
  rewrite (while_more_fuel _ _ (parse_step fuel (lines_of content))
             (fun a b => parse_step_more_fuel _ _ _ a b Hle) _ _ _ _ Hle W).
  exact E.
Qed.

Lemma parseAttributes_terminates_witness :
  exists st',
    parse_step 4 (lines_of private_sample) (0, []) = Some st'.
Proof.
  apply (proj1 (proj2 (proj2 parseAttributes_terminates))
           (lines_of private_sample) 0 []).
  vm_compute; lia.
Defined.

Lemma step_records_of (fuel : nat) (lines : list string)
  (st : nat * list Attribute) (st' : nat * list (string * string)) :
  records_of st st' ->
  match parse_step fuel lines st, declare_step fuel lines st' with
  | Some a, Some b => records_of a b
  | None, None => True
  | _, _ => False
  end.
Proof.
  destruct st as [index attrs], st' as [index' ds]; intros [H1 H2];
    simpl in H1, H2; subst.
  unfold parse_step, declare_step.
  destruct (attribute_start _) as [[attrName attrType0]|]; [|split; reflexivity].
  destruct (continuation fuel lines index' attrType0) as [r|]; [|exact I].
  unfold records_of; cbn [fst snd].
  rewrite filter_app, map_app; cbn [filter].
  change (is_private (attrName, clean (attrType r)))
    with (includes (clean (attrType r)) "Schema.Attribute.Private").
  destruct (includes (clean (attrType r)) "Schema.Attribute.Private");
    cbn [negb map fst snd]; split; auto.
  now rewrite List.app_nil_r.
Qed.

(** C7. An attribute declaration whose reconstructed type expression holds
    the private marker yields no record: the turn of the loop that reads it
    moves past its lines and leaves the list of attributes as it was,
    whatever other markers the expression holds, and the list
    [parseAttributes] returns is made of the records of the declarations
    without the marker, in their order. *)
Theorem private_attributes_yield_no_record :
  (forall fuel lines index attrs attrName attrType0 r,
     attribute_start (nth index lines EmptyString) = Some (attrName, attrType0) ->
     continuation fuel lines index attrType0 = Some r ->
     includes (clean (attrType r)) "Schema.Attribute.Private" = true ->
     parse_step fuel lines (index, attrs) = Some (i r, attrs))
  /\ (forall attributesContent,
        exists ds,
          declarations attributesContent = Some ds
          /\ parseAttributes attributesContent
             = Some (map record_of (filter (fun d => negb (is_private d)) ds))).
Proof.
  split.
  - intros fuel lines index attrs attrName attrType0 r Hs Hc Hp.
    unfold parse_step; now rewrite Hs, Hc, Hp.
  - intros content.
    destruct (parseAttributes_total content) as [attrs E].
    unfold parseAttributes, parse_lines, declarations in *; cbv zeta in *.
    pose proof (while_simulation records_of
                  (fun st => (fst st <? List.length (lines_of content))%nat)
                  (fun st => (fst st <? List.length (lines_of content))%nat)
                  (parse_step (List.length (lines_of content)) (lines_of content))
                  (declare_step (List.length (lines_of content)) (lines_of content))
                  (fun a b H => f_equal (fun n => (n <? _)%nat) (proj1 H))
                  (fun a b H _ => step_records_of _ _ a b H)
                  (List.length (lines_of content)) (0, []) (0, [])
                  (conj eq_refl eq_refl)) as Hsim.
    destruct (while _ _ (parse_step _ _) _) as [st|]; [|discriminate].
    destruct (while _ _ (declare_step _ _) _) as [st'|]; [|contradiction].
    exists (snd st'); split; [reflexivity|].
    now rewrite (proj2 Hsim).
Qed.

Lemma private_attributes_yield_no_record_witness :
  parse_step 4 (lines_of private_sample) (0, []) = Some (3, []).
Proof.
  apply (proj1 private_attributes_yield_no_record 4 (lines_of private_sample) 0 []
           "password" "Schema.Attribute.Password &"
           {| i := 3;
              attrType := "Schema.Attribute.Password & Schema.Attribute.Required & Schema.Attribute.Private;";
              openAngle := 0; openBrace := 0; openBracket := 0 |});
    reflexivity.
Defined.

(* ================================================================== *)
(** ** [generateTypes] *)
(* ================================================================== *)

Lemma interfaceRegex_progress (bos : bool) (s pre : string)
  (caps : list string) (rest : string) :
  search interfaceRegex bos s = Some (pre, caps, rest) ->
  String.length rest < String.length s.
Proof.
  intros H; apply search_sound in H as (t & -> & H).
  apply match_here_sound in H.
  destruct H as (t1 & -> & H).
  apply matches_suffix in H as (m & ->).
  rewrite !length_append; simpl; lia.
Qed.

Lemma interface_blocks_total (fuel : nat) (bos : bool) (s : string) (offset : nat) :
  String.length s <= fuel ->
  exists blocks, interface_blocks fuel bos s offset = Some blocks.
Proof.
  revert bos s offset; induction fuel as [|fuel IH]; intros bos s offset Hle;
    simpl;
    destruct (search interfaceRegex bos s) as [[[pre caps] rest]|] eqn:E; eauto;
    apply interfaceRegex_progress in E.
  - lia.
  - destruct (IH false rest (offset + (String.length s - String.length rest)))
      as [blocks ->]; [lia | eauto].
Qed.

(** The blocks are matches of the pattern in the text, at positions that
    grow from one block to the next. *)
Lemma interface_blocks_located (content : string) (fuel : nat) :
  forall bos before rest offset blocks,
    content = before ++ rest -> String.length before = offset ->
    interface_blocks fuel bos rest offset = Some blocks ->
    Forall (fun b => offset <= fst b /\ located content b) blocks
    /\ StronglySorted lt (map fst blocks).
Proof.
  induction fuel as [|fuel IH]; intros bos before rest offset blocks Hc Ho; simpl;
    destruct (search interfaceRegex bos rest) as [[[pre caps] rest']|] eqn:E;
    try discriminate;
    try (intros H; inversion H; subst; split; constructor).
  destruct (interface_blocks fuel false rest' _) as [bs|] eqn:Eb; [|discriminate].
  intros H; inversion H; subst blocks; clear H.
  apply search_sound in E as (t & -> & E).
  apply match_here_sound in E.
  assert (Hm : exists m, t = m ++ rest' /\ 1 <= String.length m).
  { destruct E as (t1 & -> & E'). apply matches_suffix in E' as (m & ->).
    exists ("export interface " ++ m); split; [now rewrite append_assoc|].
    rewrite length_append; simpl; lia. }
  destruct Hm as (m & -> & Hm).
  destruct (IH false (before ++ pre ++ m) rest'
              (offset + (String.length (pre ++ m ++ rest') - String.length rest')) bs)
    as [Hloc Hsorted]; auto.
  - now rewrite Hc, !append_assoc.
  - rewrite !length_append; lia.
  - rewrite !length_append in Hloc.
    split; constructor; cbn [map fst snd]; auto.
    + split; [lia|].
      exists (before ++ pre), (m ++ rest'), rest', (bos && negb (truthy pre)).
      cbn [fst snd]; repeat split; auto.
      * now rewrite Hc, append_assoc.
      * rewrite length_append; lia.
    + eapply Forall_impl; [|exact Hloc].
      intros b [Hb Hl]; split; [lia | exact Hl].
    + apply Forall_map. eapply Forall_impl; [|exact Hloc].
      intros b [Hb _]; cbn beta; lia.
Qed.

Lemma visit_retained (interfaceMatch : list string)
  (interfaces : list ParsedInterface) :
  visit interfaceMatch interfaces
  = Some (interfaces ++ retained interfaceMatch)%list.
Proof.
  unfold visit, retained, attributes_block.
  destruct (truthy (group 1 interfaceMatch) && truthy (group 2 interfaceMatch));
    [|now rewrite List.app_nil_r].
  destruct (exec attributesRegex _) as [attributesMatch|];
    [|now rewrite List.app_nil_r].
  destruct (truthy (group 1 attributesMatch)); [|now rewrite List.app_nil_r].
  destruct (parseAttributes_total (group 1 attributesMatch)) as [attrs ->].
  destruct attrs; simpl; [now rewrite List.app_nil_r | reflexivity].
Qed.

Lemma collect_flat_map (fuel : nat) (bos : bool) (rest : string) (offset : nat)
  (interfaces : list ParsedInterface) (blocks : list (nat * list string)) :
  interface_blocks fuel bos rest offset = Some blocks ->
  collect fuel bos rest interfaces
  = Some (interfaces ++ flat_map (fun b => retained (snd b)) blocks)%list.
Proof.
  revert bos rest offset interfaces blocks;
    induction fuel as [|fuel IH]; intros bos rest offset interfaces blocks; simpl;
    destruct (search interfaceRegex bos rest) as [[[pre caps] rest']|];
    try discriminate;
    try (intros H; inversion H; subst; simpl; now rewrite List.app_nil_r).
  destruct (interface_blocks fuel false rest' _) as [bs|] eqn:E; [|discriminate].
  intros H; inversion H; subst.
  rewrite visit_retained, (IH _ _ _ _ _ E); simpl.
  now rewrite <- List.app_assoc.
Qed.

Lemma retained_has_attributes (interfaceMatch : list string) :
  Forall (fun iface => 1 <= List.length (attributes iface))
         (retained interfaceMatch).
Proof.
  unfold retained.
  destruct (attributes_block interfaceMatch) as [a|]; [|constructor].
  destruct (parseAttributes a) as [[|x l]|]; constructor; simpl; [lia | constructor].
Qed.

(** X16. The interfaces collected from an input text are what is retained
    from the successive matches of the pattern of an interface, in the
    order in which they are found; these matches lie at strictly growing
    positions of the text; and the rendered text is that of the interfaces
    collected. *)
Theorem collected_interfaces_in_match_order (backendContent : string) :
  exists blocks interfaces,
    interface_blocks (String.length backendContent) true backendContent 0
    = Some blocks
    /\ Forall (located backendContent) blocks
    /\ StronglySorted lt (map fst blocks)
    /\ parseInterfaces backendContent = Some interfaces
    /\ interfaces = flat_map (fun b => retained (snd b)) blocks
    /\ generateTypes backendContent = Some (render interfaces).
Proof.
  destruct (interface_blocks_total (String.length backendContent) true
              backendContent 0 (le_n _)) as [blocks Hb].
  destruct (interface_blocks_located backendContent _ _ "" _ _ _
              eq_refl eq_refl Hb) as [Hloc Hsorted].
  assert (Hp : parseInterfaces backendContent
               = Some (flat_map (fun b => retained (snd b)) blocks))
    by (unfold parseInterfaces; now rewrite (collect_flat_map _ _ _ _ [] _ Hb)).
  exists blocks, (flat_map (fun b => retained (snd b)) blocks).
  split; [exact Hb|].
  split; [eapply Forall_impl; [|exact Hloc]; now intros b [_ H]|].
  split; [exact Hsorted|].
  split; [exact Hp|]. split; [reflexivity|].
  unfold generateTypes; now rewrite Hp.
Qed.

(** C8, on the program: an interface without an attributes sub-block that
    is closed on the line that opens it is not skipped.  The pattern of an
    interface runs from its header to the first closing brace at the start
    of a line, which is the one of the next interface: the only match has
    the name "Empty" and holds the sub-block of "ApiFooFoo", so that the
    output shows an interface "Empty" with the attribute of "ApiFooFoo" and
    no interface "ApiFooFoo".  With the closing brace of "Empty" on a line
    of its own, "Empty" is skipped and "ApiFooFoo" is output. *)
Theorem one_line_interface_takes_next_attributes :
  interface_blocks (String.length one_line_interface_input) true
    one_line_interface_input 0
  = Some [(0, ["Empty";
               join LF ["}";
                        "export interface ApiFooFoo {";
                        "  attributes: {";
                        "    a: Schema.Attribute.String;";
                        "  };"]])]
  /\ generateTypes one_line_interface_input
     = Some (join LF ["export interface Empty {";
                      "  a?: string;";
                      "}"])
  /\ generateTypes own_line_interface_input
     = Some (join LF ["export interface ApiFooFoo {";
                      "  a?: string;";
                      "}"]).
Proof. repeat split; vm_compute; reflexivity. Qed.

(** C1. The scenario input, whose interface ApiArticleArticle declares
    title (string, required), content (text), status (enumeration of
    "draft" and "published", required), author (relation oneToOne to
    api::author.author), tags (relation oneToMany to api::tag.tag) and
    metadata (JSON with an object-literal default), is transformed to
    exactly the text of the scenario output. *)
Theorem scenario_is_transformed : generateTypes scenario_input = Some scenario_output.
Proof. vm_compute; reflexivity. Qed.

(** With the relations in double quotes the pattern of a relation finds
    nothing and the attribute is typed "any". *)
Lemma double_quoted_relation_is_any :
  generateTypes scenario_input_double_quoted
  = Some (join LF ["export interface ApiArticleArticle {";
                   "  title: string;";
                   "  author?: any;";
                   "}"]).
Proof. vm_compute; reflexivity. Qed.

(** C3, on the program: the closing brace of the nested options, alone with
    its semicolon at the end of a line, is taken for the end of the
    attributes sub-block; the sub-block is cut after "localized: true;",
    the attribute "title" is read from the truncated text and the attribute
    "content" is lost. *)
Theorem nested_closing_brace_ends_attributes_block :
  exec attributesRegex nested_options_body
  = Some [join LF [""; "    title: Schema.Attribute.String &";
                   "      Schema.Attribute.SetPluginOptions<{";
                   "        i18n: {";
                   "          localized: true;"]]
  /\ generateTypes nested_options_input
     = Some (join LF ["export interface ApiArticleArticle {";
                      "  title?: string;";
                      "}"]).
Proof. split; vm_compute; reflexivity. Qed.

(** A type expression split over two lines whose nested braces close before
    the end of their line is read as one attribute. *)
Lemma two_line_default_is_one_attribute :
  parseAttributes
    (join LF [""; "    metadata: Schema.Attribute.JSON &";
              "      Schema.Attribute.DefaultTo<{}>;";
              "    title: Schema.Attribute.String;"])
  = Some [{| name := "metadata"; type := "Record<string, any>"; required := false |};
          {| name := "title"; type := "string"; required := false |}].
Proof. vm_compute; reflexivity. Qed.

(* ================================================================== *)
(** ** Further facts on strings and on the matcher *)
(* ================================================================== *)

Lemma includes_intro (pre l post : string) : includes (pre ++ l ++ post) l = true.
Proof.
  unfold includes; destruct (indexOf_least pre l post) as (n & -> & _); reflexivity.
Qed.

Lemma startsWith_inv (s l : string) :
  startsWith s l = true -> exists post, s = l ++ post.
Proof.
  unfold startsWith; destruct (strip_prefix l s) as [t|] eqn:E; [|discriminate].
  intros _; exists t; now apply strip_prefix_inv.
Qed.

Lemma includes_inv (s l : string) :
  includes s l = true -> exists pre post, s = pre ++ l ++ post.
Proof.
  unfold includes; induction s as [|c s IH]; cbn [indexOf];
    destruct (startsWith _ l) eqn:E;
    try (intros _; apply startsWith_inv in E as [post E]; now exists "", post);
    try discriminate.
  destruct (indexOf s l); [|discriminate].
  intros _; destruct (IH eq_refl) as (pre & post & ->).
  now exists (String c pre), post.
Qed.

Lemma includes_false_startsWith (s l : string) :
  includes s l = false -> startsWith s l = false.
Proof.
  unfold includes; destruct s; simpl; destruct (startsWith _ l); auto; discriminate.
Qed.

(** A pattern that begins with a literal finds nothing in a text without
    the literal. *)
Lemma search_Str_absent (l : string) (re : regex) (bos : bool) (s : string) :
  includes s l = false -> search (Str l :: re) bos s = None.
Proof.
  revert bos; induction s as [|c s IH]; intros bos H.
  - cbn [search]; now rewrite match_here_Str_fail by now apply includes_false_startsWith.
  - cbn [search]; rewrite match_here_Str_fail by now apply includes_false_startsWith.
    apply includes_cons_false in H as [_ H]; now rewrite IH.
Qed.

Lemma search_none (re : regex) (bos : bool) (s : string) :
  (forall a b, s = a ++ b -> match_here re (bos && negb (truthy a)) b = None) ->
  search re bos s = None.
Proof.
  revert bos; induction s as [|c s IH]; intros bos H.
  - cbn [search]. specialize (H "" "" eq_refl); simpl in H.
    rewrite andb_true_r in H; now rewrite H.
  - cbn [search]. pose proof (H "" (String c s) eq_refl) as H0; simpl in H0.
    rewrite andb_true_r in H0; rewrite H0.
    rewrite (IH false); [reflexivity|].
    intros a b ->. specialize (H (String c a) b eq_refl).
    simpl in H; now rewrite andb_false_r in H.
Qed.

Lemma all_chars_impl (p q : ascii -> bool) (s : string) :
  (forall c, p c = true -> q c = true) -> all_chars p s = true -> all_chars q s = true.
Proof.
  intros Hpq; induction s as [|c s IH]; simpl; [reflexivity|].
  intros H; apply andb_prop in H as [Hc Hs]; now rewrite (Hpq _ Hc), IH.
Qed.

Lemma all_chars_app_inv (p : ascii -> bool) (a b : string) :
  all_chars p (a ++ b) = true -> all_chars p a = true /\ all_chars p b = true.
Proof. rewrite all_chars_app; apply andb_prop. Qed.

(** The capture groups of a match are made of characters of the text. *)
Lemma matches_captures (p : ascii -> bool) (re : regex) (bos : bool) (s : string)
  (caps : list string) (rest : string) :
  matches re bos s caps rest -> all_chars p s = true ->
  Forall (fun w => all_chars p w = true) caps.
Proof.
  revert bos s caps; induction re as [|a re IH]; intros bos s caps; simpl.
  - intros [-> _] _; constructor.
  - destruct a as [l|q|q cap q'| |m].
    + intros (t & -> & H) Hs. apply all_chars_app_inv in Hs as [_ Ht]; eauto.
    + intros (c & t & -> & _ & H) Hs; simpl in Hs.
      apply andb_prop in Hs as [_ Ht]; eauto.
    + intros (w & t & caps' & -> & _ & _ & H & ->) Hs.
      apply all_chars_app_inv in Hs as [Hw Ht].
      destruct cap; [constructor; auto|]; eauto.
    + intros [_ H]; eauto.
    + intros [_ H]; eauto.
Qed.

Lemma exec_captures (p : ascii -> bool) (re : regex) (s : string) (caps : list string) :
  exec re s = Some caps -> all_chars p s = true ->
  Forall (fun w => all_chars p w = true) caps.
Proof.
  unfold exec.
  destruct (search re true s) as [[[pre caps'] rest]|] eqn:E; [|discriminate].
  intros H Hs; inversion H; subst.
  apply search_sound in E as (t & -> & E).
  apply all_chars_app_inv in Hs as [_ Ht].
  eapply matches_captures; [now apply match_here_sound in E; exact E | exact Ht].
Qed.

Lemma group_all_chars (p : ascii -> bool) (n : nat) (caps : list string) :
  Forall (fun w => all_chars p w = true) caps -> all_chars p (group n caps) = true.
Proof.
  unfold group; intros H; generalize (n - 1); clear n.
  induction H as [|w caps Hw _ IH]; intros [|n]; simpl; auto.
Qed.

(* ================================================================== *)
(** ** Inputs without interface or without declaration *)
(* ================================================================== *)

Lemma interfaceRegex_needs (bos : bool) (s pre : string) (caps : list string)
  (rest : string) :
  search interfaceRegex bos s = Some (pre, caps, rest) ->
  includes s "export interface " = true /\ includes s (LF ++ "}") = true.
Proof.
  intros H; apply search_sound in H as (t & -> & H).
  apply match_here_sound in H; simpl in H.
  destruct H as (t1 & -> & name & t2 & caps1 & -> & _ & _ & H & ->).
  destruct H as (w & t3 & caps2 & -> & _ & _ & H & ->).
  destruct H as (t4 & -> & body & t5 & caps3 & -> & _ & _ & H & ->).
  destruct H as (t6 & -> & -> & ->).
  split.
  - exact (includes_intro pre "export interface "
             (name ++ w ++ "{" ++ body ++ (LF ++ "}") ++ t6)).
  - pose proof (includes_intro (pre ++ "export interface " ++ name ++ w ++ "{" ++ body)
                  (LF ++ "}") t6) as E.
    rewrite !append_assoc in E. exact E.
Qed.

(** X1. A text that does not hold the words "export interface " with the
    space that closes them, or that holds no closing brace at the start of
    a line, gives the empty output: no interface is collected from it. *)
Theorem no_interface_no_output (backendContent : string) :
  includes backendContent "export interface " = false
  \/ includes backendContent (LF ++ "}") = false ->
  parseInterfaces backendContent = Some []
  /\ generateTypes backendContent = Some "".
Proof.
  intros H.
  assert (E : search interfaceRegex true backendContent = None).
  { destruct (search interfaceRegex true backendContent) as [[[pre caps] rest]|] eqn:E;
      [|reflexivity].
    apply interfaceRegex_needs in E as [E1 E2].
    destruct H as [H | H]; congruence. }
  assert (P : parseInterfaces backendContent = Some []).
  { unfold parseInterfaces.
    destruct (String.length backendContent); simpl; now rewrite E. }
  split; [exact P|]. unfold generateTypes; now rewrite P.
Qed.

Lemma no_interface_no_output_witness :
  parseInterfaces declaration_less_input = Some []
  /\ generateTypes declaration_less_input = Some "".
Proof.
  apply no_interface_no_output; left; reflexivity.
Defined.

(* ================================================================== *)
(** ** The first line of an attribute *)
(* ================================================================== *)

Lemma head_outside_app (p : ascii -> bool) (t rest : string) :
  truthy t = true -> head_outside p t = true -> head_outside p (t ++ rest) = true.
Proof. destruct t; [discriminate | auto]. Qed.

Lemma match_here_Bos (re : regex) (s : string) :
  match_here (Bos :: re) true s = match_here re true s.
Proof. reflexivity. Qed.

Lemma attrRegex_exec (n ws t rest : string) :
  truthy n = true -> all_chars is_word n = true ->
  all_chars is_space ws = true -> head_outside is_space (t ++ rest) = true ->
  all_chars dot t = true -> head_outside dot rest = true ->
  exec attrRegex (n ++ ":" ++ ws ++ t ++ rest) = Some [n; t].
Proof.
  intros H1 H2 H3 H4 H5 H6; unfold exec.
  assert (E : match_here attrRegex true (n ++ ":" ++ ws ++ t ++ rest)
              = Some ([n; t], rest)).
  { unfold attrRegex; rewrite match_here_Bos.
    apply (match_here_Plus true); auto.
    rewrite match_here_Str.
    apply (match_here_Star false); auto.
    apply (match_here_Star true); auto. }
  destruct (n ++ ":" ++ ws ++ t ++ rest); cbn [search]; now rewrite E.
Qed.

Lemma attrRegex_sound (line : string) (caps : list string) :
  exec attrRegex line = Some caps ->
  exists n ws t rest,
    caps = [n; t] /\ line = n ++ ":" ++ ws ++ t ++ rest
    /\ truthy n = true /\ all_chars is_word n = true
    /\ all_chars is_space ws = true /\ all_chars dot t = true.
Proof.
  unfold exec.
  destruct (search attrRegex true line) as [[[pre caps'] rest]|] eqn:E; [|discriminate].
  intros H; inversion H; subst; clear H.
  apply search_sound in E as (u & -> & E).
  apply match_here_sound in E; simpl in E.
  destruct E as (Hbos & n & t1 & caps1 & -> & Hn & Hlen & E & ->).
  destruct E as (t2 & -> & ws & t3 & caps2 & -> & Hws & _ & E & ->).
  destruct E as (t & t4 & caps3 & -> & Ht & _ & (-> & E) & ->).
  destruct pre; [|discriminate].
  exists n, ws, t, t4; repeat split; auto.
  now apply truthy_length.
Qed.

Lemma attribute_start_sound (line n t : string) :
  attribute_start line = Some (n, t) ->
  exists ws rest,
    line = n ++ ":" ++ ws ++ t ++ rest
    /\ truthy n = true /\ all_chars is_word n = true
    /\ all_chars is_space ws = true
    /\ truthy t = true /\ all_chars dot t = true.
Proof.
  unfold attribute_start.
  destruct (exec attrRegex line) as [caps|] eqn:E; [|discriminate].
  apply attrRegex_sound in E as (n' & ws & t' & rest & -> & -> & H1 & H2 & H3 & H4).
  cbn [group Nat.sub nth].
  destruct (truthy n' && truthy t') eqn:T; [|discriminate].
  intros H; inversion H; subst.
  apply andb_prop in T as [_ T].
  exists ws, rest; repeat split; auto.
Qed.

(** X2. A line begins an attribute exactly when it is made of a non-empty
    name of word characters, a colon, white space, a non-empty start of
    type expression that runs to the end of the line or to the first line
    terminator inside it, and what follows that terminator; the name and the
    start of the type expression are then the two results. *)
Theorem attribute_start_iff (line n t : string) :
  attribute_start line = Some (n, t)
  <-> exists ws rest,
        line = n ++ ":" ++ ws ++ t ++ rest
        /\ truthy n = true /\ all_chars is_word n = true
        /\ all_chars is_space ws = true
        /\ truthy t = true /\ head_outside is_space t = true
        /\ all_chars dot t = true /\ head_outside dot rest = true.
Proof.
  split.
  - intros H.
    destruct (attribute_start_sound _ _ _ H)
      as (ws & rest & E & H1 & H2 & H3 & H4 & H5).
    destruct (span is_space (ws ++ t ++ rest)) as (ws' & r & Er & Hws' & Hr).
    destruct (span dot r) as (t' & rest' & -> & Ht' & Hrest').
    assert (E' : exec attrRegex line = Some [n; t']).
    { rewrite E, Er; now apply attrRegex_exec. }
    unfold attribute_start in H; rewrite E' in H; cbn [group Nat.sub nth] in H.
    destruct (truthy n && truthy t') eqn:T; [|discriminate].
    inversion H; subst t'; clear H.
    exists ws', rest'; repeat split; auto.
    + now rewrite E, Er.
    + destruct t; [discriminate | exact Hr].
  - intros (ws & rest & -> & H1 & H2 & H3 & H4 & H5 & H6 & H7).
    unfold attribute_start.
    rewrite attrRegex_exec; auto; [|now apply head_outside_app].
    cbn [group Nat.sub nth]; now rewrite H1, H4.
Qed.

Lemma attribute_start_iff_witness :
  attribute_start "title: Schema.Attribute.String &"
  = Some ("title", "Schema.Attribute.String &").
Proof.
  apply (proj2 (attribute_start_iff _ _ _)).
  exists " ", ""; repeat split; reflexivity.
Defined.

Lemma word_prefix_unique (p : ascii -> bool) (a a' : string) (c c' : ascii)
  (r r' : string) :
  all_chars p a = true -> all_chars p a' = true -> p c = false -> p c' = false ->
  a ++ String c r = a' ++ String c' r' -> a = a' /\ c = c'.
Proof.
  revert a'; induction a as [|x a IH]; intros [|x' a'] Ha Ha' Hc Hc' E;
    simpl in *; inversion E; subst; auto.
  - apply andb_prop in Ha' as [Hx _]; congruence.
  - apply andb_prop in Ha as [Hx _]; congruence.
  - apply andb_prop in Ha as [_ Ha]; apply andb_prop in Ha' as [_ Ha'].
    destruct (IH a' Ha Ha' Hc Hc' H1) as [-> ->]; auto.
Qed.

(** X3. Two kinds of line begin no attribute: a name followed by a colon and
    nothing but white space, the type expression being left to the next
    line; and a line whose leading word characters are followed by anything
    but a colon, such as a name with a hyphen, a name followed by a question
    mark or a name in quotes. *)
Theorem lines_that_begin_no_attribute :
  (forall n ws,
     truthy n = true -> all_chars is_word n = true -> all_chars is_space ws = true ->
     attribute_start (n ++ ":" ++ ws) = None)
  /\ (forall n c rest,
        all_chars is_word n = true -> is_word c = false -> c <> ":"%char ->
        attribute_start (n ++ String c rest) = None).
Proof.
  split.
  - intros n ws H1 H2 H3; unfold attribute_start.
    replace (n ++ ":" ++ ws) with (n ++ ":" ++ ws ++ "" ++ "")
      by now rewrite !append_nil_r.
    rewrite attrRegex_exec; auto.
    cbn [group Nat.sub nth truthy]; now rewrite andb_false_r.
  - intros n c rest Hn Hc Hcolon.
    destruct (attribute_start (n ++ String c rest)) as [[n' t]|] eqn:E; [|reflexivity].
    apply attribute_start_sound in E as (ws & rest' & E & _ & Hn' & _).
    change (n' ++ ":" ++ ws ++ t ++ rest')
      with (n' ++ String ":" (ws ++ t ++ rest')) in E.
    apply word_prefix_unique with (p := is_word) in E as [_ E]; auto.
    congruence.
Qed.

Lemma lines_that_begin_no_attribute_witness :
  attribute_start "title:" = None
  /\ attribute_start "my-field: Schema.Attribute.String;" = None
  /\ attribute_start "title?: Schema.Attribute.String;" = None.
Proof.
  destruct lines_that_begin_no_attribute as [H1 H2].
  split; [|split].
  - apply (H1 "title" ""); reflexivity.
  - apply (H2 "my" "-"%char "field: Schema.Attribute.String;");
      [reflexivity | reflexivity | discriminate].
  - apply (H2 "title" "?"%char ": Schema.Attribute.String;");
      [reflexivity | reflexivity | discriminate].
Defined.

(* ================================================================== *)
(** ** Substrings *)
(* ================================================================== *)

Lemma all_chars_trimStart (p : ascii -> bool) (s : string) :
  all_chars p s = true -> all_chars p (trimStart s) = true.
Proof.
  induction s as [|c s IH]; [auto|].
  intros H; cbn [trimStart]; destruct (is_space c); [|exact H].
  simpl in H; apply andb_prop in H as [_ H]; auto.
Qed.

Lemma all_chars_trimEnd (p : ascii -> bool) (s : string) :
  all_chars p s = true -> all_chars p (trimEnd s) = true.
Proof.
  induction s as [|c s IH]; [auto|].
  intros H; simpl in H; apply andb_prop in H as [Hc Hs].
  cbn [trimEnd]; cbv zeta.
  destruct (is_space c && negb (truthy (trimEnd s))); [reflexivity|].
  simpl; now rewrite Hc, IH.
Qed.

Lemma all_chars_trim (p : ascii -> bool) (s : string) :
  all_chars p s = true -> all_chars p (trim s) = true.
Proof. intros H; now apply all_chars_trimEnd, all_chars_trimStart. Qed.

Lemma all_chars_split_from (p : ascii -> bool) (sep s : string) (skip : nat) :
  all_chars p s = true ->
  all_chars p (fst (split_from sep s skip)) = true
  /\ Forall (fun w => all_chars p w = true) (snd (split_from sep s skip)).
Proof.
  revert skip; induction s as [|c s IH]; intros skip H; [simpl; auto|].
  simpl in H; apply andb_prop in H as [Hc Hs].
  cbn [split_from]; destruct skip as [|n]; [|now apply IH].
  destruct (startsWith (String c s) sep).
  - destruct (IH (String.length sep - 1) Hs) as [H1 H2].
    destruct (split_from sep s (String.length sep - 1)); simpl in *; auto.
  - destruct (IH 0 Hs) as [H1 H2].
    destruct (split_from sep s 0); simpl in *; now rewrite Hc, H1.
Qed.

Lemma all_chars_split (p : ascii -> bool) (s sep : string) :
  all_chars p s = true -> Forall (fun w => all_chars p w = true) (split s sep).
Proof.
  intros H; unfold split.
  destruct (all_chars_split_from p sep s 0 H) as [H1 H2].
  destruct (split_from sep s 0); simpl in *; auto.
Qed.

Lemma all_chars_lines_of (p : ascii -> bool) (attributesContent : string) :
  all_chars p attributesContent = true ->
  Forall (fun l => all_chars p l = true) (lines_of attributesContent).
Proof.
  intros H; unfold lines_of.
  apply Forall_forall; intros l Hl.
  apply filter_In in Hl as [Hl _].
  apply in_map_iff in Hl as (raw & <- & Hraw).
  apply all_chars_trim.
  pose proof (all_chars_split p _ LF H) as F.
  rewrite Forall_forall in F; auto.
Qed.

Lemma all_chars_nth (p : ascii -> bool) (lines : list string) (n : nat) :
  Forall (fun l => all_chars p l = true) lines ->
  all_chars p (nth n lines "") = true.
Proof.
  intros H; revert n; induction H as [|l lines Hl _ IH]; intros [|n]; simpl; auto.
Qed.

(** X4. A sub-block without a colon, the empty and the blank ones among
    them, has no attribute: [parseAttributes] returns the empty list. *)
Theorem colon_free_block_has_no_attribute (attributesContent : string) :
  all_chars (not_chr ":") attributesContent = true ->
  parseAttributes attributesContent = Some [].
Proof.
  intros H.
  destruct (parseAttributes_total attributesContent) as [attrs E]; rewrite E.
  unfold parseAttributes, parse_lines in E; cbv zeta in E.
  destruct (while _ _ _ _) as [st|] eqn:W; [|discriminate].
  inversion E; subst; clear E.
  apply (while_invariant _ (fun st => snd st = [])) in W as [W _]; [now rewrite W| |reflexivity].
  intros [index attrs] st' Hst _; simpl in Hst; subst attrs.
  unfold parse_step.
  destruct (attribute_start _) as [[n t]|] eqn:S; [|intros E; now inversion E].
  apply attribute_start_sound in S as (ws & rest & E & _).
  pose proof (all_chars_nth _ _ index (all_chars_lines_of _ _ H)) as C.
  rewrite E in C. apply all_chars_app_inv in C as [_ C]; discriminate.
Qed.

Lemma colon_free_block_witness : parseAttributes colon_free_block = Some [].
Proof. apply colon_free_block_has_no_attribute; reflexivity. Defined.

(* ================================================================== *)
(** ** What the returned attributes are made of *)
(* ================================================================== *)

Lemma collapse_from_tidy (in_run : bool) (s : string) :
  all_chars tidy (collapse_from in_run s) = true.
Proof.
  revert in_run; induction s as [|c s IH]; intros in_run; [reflexivity|].
  cbn [collapse_from]; destruct (is_space c) eqn:E.
  - destruct in_run; [apply IH|]. cbn [all_chars]; now rewrite IH.
  - cbn [all_chars]; unfold tidy at 1; now rewrite E, IH.
Qed.

Lemma bars_from_tidy (after_comma : bool) (s : string) :
  all_chars tidy s = true -> all_chars tidy (bars_from after_comma s) = true.
Proof.
  revert after_comma; induction s as [|c s IH]; intros after_comma H; [reflexivity|].
  simpl in H; apply andb_prop in H as [Hc Hs].
  cbn [bars_from]; destruct (after_comma && is_space c); [now apply IH|].
  destruct (chr "," c).
  - change (" | " ++ bars_from true s)
      with (String " " (String "|" (String " " (bars_from true s)))).
    cbn [all_chars]; now rewrite IH.
  - cbn [all_chars]; now rewrite Hc, IH.
Qed.

Lemma clean_tidy (s : string) : all_chars tidy (clean s) = true.
Proof.
  unfold clean; rewrite replace_spaces_collapse.
  apply all_chars_trim, collapse_from_tidy.
Qed.

Lemma upper_char_tidy (c : ascii) : tidy c = true -> tidy (upper_char c) = true.
Proof. destruct c as [[] [] [] [] [] [] [] []]; intros H; exact H. Qed.

Lemma tidy_dot (c : ascii) : tidy c = true -> dot c = true.
Proof. destruct c as [[] [] [] [] [] [] [] []]; intros H; try exact H; reflexivity. Qed.

Lemma word_dot (c : ascii) : is_word c = true -> dot c = true.
Proof. destruct c as [[] [] [] [] [] [] [] []]; intros H; try exact H; reflexivity. Qed.

Lemma all_chars_split_tokens_Cls (p q : ascii -> bool) (bos : bool) (s : string) :
  all_chars p s = true ->
  all_chars p (fst (split_tokens (scan [Cls q] bos s 0))) = true
  /\ Forall (fun w => all_chars p w = true)
            (snd (split_tokens (scan [Cls q] bos s 0))).
Proof.
  revert bos; induction s as [|c s IH]; intros bos H.
  - rewrite scan_Cls_end; simpl; auto.
  - simpl in H; apply andb_prop in H as [Hc Hs].
    rewrite scan_Cls. specialize (IH false Hs).
    destruct (q c); cbn [split_tokens];
      destruct (split_tokens (scan [Cls q] false s 0)) as [h t]; simpl in *;
      destruct IH; auto.
    now rewrite Hc.
Qed.

Lemma all_chars_join (p : ascii -> bool) (ws : list string) :
  Forall (fun w => all_chars p w = true) ws -> all_chars p (join "" ws) = true.
Proof.
  induction 1 as [|w ws Hw _ IH]; [reflexivity|].
  now rewrite join_empty_cons, all_chars_app, Hw, IH.
Qed.

Lemma all_chars_capitalize (p : ascii -> bool) (w : string) :
  (forall c, p c = true -> p (upper_char c) = true) ->
  all_chars p w = true -> all_chars p (capitalize w) = true.
Proof.
  intros Hup; destruct w as [|c w]; [auto|].
  rewrite capitalize_cons; simpl; intros H.
  apply andb_prop in H as [Hc Hw]; now rewrite (Hup _ Hc), Hw.
Qed.

(** The converted name is made of the characters of the name, the first of
    each word in upper case. *)
Lemma all_chars_convert (p : ascii -> bool) (typeName : string) :
  (forall c, p c = true -> p (upper_char c) = true) ->
  all_chars p typeName = true ->
  all_chars p (convertTypeNameToPascalCase typeName) = true.
Proof.
  intros Hup H; unfold convertTypeNameToPascalCase.
  apply all_chars_join, Forall_map.
  eapply Forall_impl; [|apply (all_chars_split p _ "::" H)].
  intros part Hpart; unfold convertPart, dashDotRegex, split_re.
  apply all_chars_join, Forall_map.
  destruct (all_chars_split_tokens_Cls p is_dash_or_dot true part Hpart) as [H1 H2].
  destruct (split_tokens _) as [h t]; simpl in *.
  constructor; [now apply all_chars_capitalize|].
  eapply Forall_impl; [|exact H2].
  intros w Hw; now apply all_chars_capitalize.
Qed.

Lemma transformAttributeType_tidy (attributeType : string) :
  all_chars tidy attributeType = true ->
  all_chars tidy (transformAttributeType attributeType) = true.
Proof.
  intros H; unfold transformAttributeType.
  destruct (includes attributeType "Schema.Attribute.Enumeration").
  { destruct (exec enumRegex attributeType) as [caps|]; [|reflexivity].
    destruct (truthy (group 1 caps)); [|reflexivity].
    rewrite replace_spaces_collapse, replace_commas_bars.
    apply all_chars_trim, bars_from_tidy, collapse_from_tidy. }
  destruct (includes attributeType "Schema.Attribute.Relation").
  { destruct (exec relationRegex attributeType) as [caps|] eqn:E; [|reflexivity].
    destruct (truthy (group 1 caps) && truthy (group 2 caps)); [|reflexivity].
    pose proof (group_all_chars tidy 2 caps (exec_captures tidy _ _ _ E H)) as G.
    pose proof (all_chars_convert tidy _ upper_char_tidy G) as C.
    cbv zeta; destruct (_ || _); [|exact C].
    now rewrite all_chars_app, C. }
  repeat match goal with
         | |- context [if ?b then _ else _] => destruct b
         end; reflexivity.
Qed.

Lemma render_attribute_dot (attr : Attribute) :
  all_chars is_word (name attr) = true -> all_chars tidy (type attr) = true ->
  all_chars dot (render_attribute attr) = true.
Proof.
  intros Hn Ht; unfold render_attribute; cbv zeta.
  rewrite !all_chars_app.
  rewrite (all_chars_impl _ _ _ word_dot Hn), (all_chars_impl _ _ _ tidy_dot Ht).
  destruct (required attr); reflexivity.
Qed.

Lemma parseAttributes_well_formed (attributesContent : string)
  (attrs : list Attribute) :
  parseAttributes attributesContent = Some attrs -> Forall well_formed attrs.
Proof.
  intros E; unfold parseAttributes, parse_lines in E; cbv zeta in E.
  destruct (while _ _ _ _) as [st|] eqn:W; [|discriminate].
  inversion E; subst; clear E.
  apply (while_invariant _ (fun st => Forall well_formed (snd st))) in W as [W _];
    [exact W| |constructor].
  intros [index attrs] st' Hst _; simpl in Hst.
  unfold parse_step.
  destruct (attribute_start _) as [[n t]|] eqn:S; [|intros E; now inversion E].
  apply attribute_start_sound in S as (ws & rest & _ & Hn1 & Hn2 & _).
  destruct (continuation _ _ _ _) as [r|]; [|discriminate].
  destruct (includes _ _); intros E; inversion E; subst; simpl; [exact Hst|].
  apply Forall_app; split; [exact Hst|].
  constructor; [|constructor].
  assert (Ht : all_chars tidy (transformAttributeType (clean (attrType r))) = true)
    by apply transformAttributeType_tidy, clean_tidy.
  unfold well_formed; cbn [name type]; repeat split; auto.
  now apply render_attribute_dot.
Qed.

(** X5. Every attribute that [parseAttributes] returns has a non-empty name
    made of word characters and a type in which the only white space is the
    space character, so that it is rendered on one line of the output. *)
Theorem parsed_attributes_well_formed (attributesContent : string) :
  exists attrs,
    parseAttributes attributesContent = Some attrs /\ Forall well_formed attrs.
Proof.
  destruct (parseAttributes_total attributesContent) as [attrs E].
  exists attrs; split; [exact E | now apply parseAttributes_well_formed in E].
Qed.

(* ================================================================== *)
(** ** Lines that are complete by themselves *)
(* ================================================================== *)

Lemma skipn_nth_cons {A : Type} (d : A) (n : nat) (l : list A) :
  n < List.length l -> skipn n l = nth n l d :: skipn (S n) l.
Proof.
  revert l; induction n as [|n IH]; intros [|x l] H; simpl in H; try lia;
    [reflexivity|].
  cbn [skipn nth]; rewrite IH by lia; reflexivity.
Qed.

Lemma continuation_complete (fuel : nat) (lines : list string) (index : nat)
  (attrType0 : string) :
  complete attrType0 = true ->
  continuation fuel lines index attrType0 = Some (start_reading index attrType0).
Proof.
  intros H; unfold continuation; apply while_leave.
  rewrite unfinished_complete by reflexivity.
  cbn [start_reading attrType]; now rewrite H, andb_false_r.
Qed.

Lemma parse_settled_from (lines : list string) (inner : nat) :
  forallb settled lines = true ->
  forall k fuel index attrs,
    index + k = List.length lines -> k <= fuel ->
    while fuel (fun st => (fst st <? List.length lines)%nat)
      (parse_step inner lines) (index, attrs)
    = Some (List.length lines,
            (attrs ++ map record_of
                        (filter (fun d => negb (is_private d))
                                (flat_map line_declaration (skipn index lines))))%list).
Proof.
  intros Hall; induction k as [|k IH]; intros fuel index attrs Hk Hfuel.
  - rewrite while_leave by (apply Nat.ltb_ge; simpl; lia).
    replace index with (List.length lines) by lia.
    now rewrite skipn_all, List.app_nil_r.
  - destruct fuel as [|fuel]; [lia|].
    assert (Hlt : index < List.length lines) by lia.
    rewrite (skipn_nth_cons EmptyString) by exact Hlt.
    assert (Hs : settled (nth index lines EmptyString) = true).
    { rewrite forallb_forall in Hall; apply Hall, nth_In, Hlt. }
    cbn [flat_map]; unfold settled in Hs; unfold line_declaration at 1.
    assert (Hc : (fst (index, attrs) <? List.length lines)%nat = true)
      by now apply Nat.ltb_lt.
    destruct (attribute_start (nth index lines EmptyString)) as [[n t]|] eqn:Hs0.
    + assert (Hstep : parse_step inner lines (index, attrs)
                      = Some (S index,
                              (attrs ++ map record_of
                                 (filter (fun d => negb (is_private d))
                                         [(n, clean t)]))%list)).
      { unfold parse_step; rewrite Hs0, (continuation_complete _ _ _ _ Hs).
        cbn [start_reading i attrType filter]; unfold is_private; cbn [snd].
        destruct (includes (clean t) "Schema.Attribute.Private");
          cbn [negb map]; [now rewrite List.app_nil_r | reflexivity]. }
      rewrite (while_turn (fun st : nat * list Attribute => (fst st <? List.length lines)%nat)
                 fuel (parse_step inner lines) (index, attrs) _ Hc Hstep), IH by lia.
      now rewrite filter_app, map_app, List.app_assoc.
    + assert (Hstep : parse_step inner lines (index, attrs) = Some (S index, attrs))
        by (unfold parse_step; now rewrite Hs0).
      rewrite (while_turn (fun st : nat * list Attribute => (fst st <? List.length lines)%nat)
                 fuel (parse_step inner lines) (index, attrs) _ Hc Hstep), IH by lia.
      reflexivity.
Qed.

(** X6. When every line of a sub-block that begins an attribute holds a
    type expression that is complete on the line (it ends with a semicolon
    and leaves no bracket open), each such line is one declaration by
    itself, whatever the lines around it: the attributes returned are the
    records of these lines, in order, without the private ones, and the
    other lines count for nothing. *)
Theorem settled_lines_parse_one_by_one (attributesContent : string) :
  forallb settled (lines_of attributesContent) = true ->
  parseAttributes attributesContent
  = Some (map record_of
            (filter (fun d => negb (is_private d))
                    (flat_map line_declaration (lines_of attributesContent)))).
Proof.
  intros H; unfold parseAttributes, parse_lines; cbv zeta.
  now rewrite (parse_settled_from _ _ H (List.length (lines_of attributesContent))
                 _ 0 [] eq_refl (le_n _)).
Qed.

Lemma settled_lines_witness :
  parseAttributes settled_sample
  = Some (map record_of
            (filter (fun d => negb (is_private d))
                    (flat_map line_declaration (lines_of settled_sample)))).
Proof. apply settled_lines_parse_one_by_one; reflexivity. Defined.

(* ================================================================== *)
(** ** Cleaning a type expression *)
(* ================================================================== *)

Lemma endsWith_same (l : string) : endsWith l l = true.
Proof. destruct l; simpl; [reflexivity | now rewrite Ascii.eqb_refl, String.eqb_refl]. Qed.

Lemma endsWith_app (a l : string) : endsWith (a ++ l) l = true.
Proof.
  induction a as [|c a IH]; [apply endsWith_same|].
  cbn [append endsWith]; rewrite IH; now destruct (String.eqb _ _).
Qed.

Lemma strip_trailing_semicolon (t : string) :
  replace_first trailingSemicolonRegex "" (t ++ ";") = t.
Proof.
  unfold replace_first.
  rewrite (search_found trailingSemicolonRegex true t ";" [] "").
  - now rewrite append_nil_r.
  - intros a [|c b] -> Hb; [discriminate|].
    unfold trailingSemicolonRegex; cbn [append match_here strip_prefix].
    destruct (Ascii.eqb ";" c); [|reflexivity].
    destruct b; reflexivity.
  - reflexivity.
Qed.

Lemma keep_without_semicolon (s : string) :
  endsWith s ";" = false -> replace_first trailingSemicolonRegex "" s = s.
Proof.
  intros H; unfold replace_first.
  rewrite search_none; [reflexivity|].
  intros a b ->.
  destruct (match_here trailingSemicolonRegex _ b) as [[caps rest]|] eqn:E;
    [|reflexivity].
  apply match_here_sound in E; simpl in E.
  destruct E as (t & -> & Heol & _).
  destruct t; [|discriminate].
  now rewrite endsWith_app in H.
Qed.

(** X7. Cleaning a type expression removes one semicolon at its end, and
    no more than one, then collapses every run of white space to one space
    and trims the result; an expression that does not end with a semicolon
    is only collapsed and trimmed. *)
Theorem clean_strips_one_semicolon :
  (forall t, clean (t ++ ";") = trim (collapse t))
  /\ (forall s, endsWith s ";" = false -> clean s = trim (collapse s)).
Proof.
  split.
  - intros t; unfold clean.
    now rewrite strip_trailing_semicolon, replace_spaces_collapse.
  - intros s H; unfold clean.
    now rewrite (keep_without_semicolon _ H), replace_spaces_collapse.
Qed.

Lemma clean_strips_one_semicolon_witness :
  clean "Schema.Attribute.String  &  Schema.Attribute.Required"
  = trim (collapse "Schema.Attribute.String  &  Schema.Attribute.Required").
Proof.
  apply (proj2 clean_strips_one_semicolon); reflexivity.
Defined.

(* ================================================================== *)
(** ** [transformAttributeType]: the other branches *)
(* ================================================================== *)

(** X8. A type expression with the relation marker and no enumeration
    marker that holds no single quote, as when the kind and the target of
    the relation are written in double quotes, is typed "any". *)
Theorem relation_without_single_quote_is_any (attributeType : string) :
  includes attributeType "Schema.Attribute.Relation" = true ->
  includes attributeType "Schema.Attribute.Enumeration" = false ->
  all_chars (not_chr "'") attributeType = true ->
  transformAttributeType attributeType = "any".
Proof.
  intros Hr He Hq; unfold transformAttributeType; rewrite He, Hr.
  assert (E : exec relationRegex attributeType = None).
  { unfold exec, relationRegex; rewrite search_Str_absent; [reflexivity|].
    destruct (includes attributeType "Relation<'") eqn:I; [|reflexivity].
    apply includes_inv in I as (pre & post & ->).
    apply all_chars_app_inv in Hq as [_ Hq].
    apply all_chars_app_inv in Hq as [Hq _]; discriminate. }
  now rewrite E.
Qed.

Lemma relation_without_single_quote_witness :
  transformAttributeType
    ("Schema.Attribute.Relation<" ++ DQ ++ "oneToMany" ++ DQ ++ ", " ++ DQ
     ++ "api::tag.tag" ++ DQ ++ ">")
  = "any".
Proof. apply relation_without_single_quote_is_any; reflexivity. Defined.

(* ================================================================== *)
(** ** [convertTypeNameToPascalCase]: separators *)
(* ================================================================== *)

Lemma join_empty_app (l1 l2 : list string) :
  join "" (l1 ++ l2) = join "" l1 ++ join "" l2.
Proof.
  induction l1 as [|x l1 IH]; [reflexivity|].
  cbn [app]; now rewrite !join_empty_cons, IH, append_assoc.
Qed.

Lemma scan_Cls_bos (q : ascii -> bool) (bos : bool) (s : string) :
  scan [Cls q] bos s 0 = scan [Cls q] false s 0.
Proof. destruct s; [reflexivity | now rewrite !scan_Cls]. Qed.

Lemma split_tokens_Cls_app (q : ascii -> bool) (c : ascii) (x y : string) :
  q c = true ->
  forall bos,
    split_tokens (scan [Cls q] bos (x ++ String c y) 0)
    = (fst (split_tokens (scan [Cls q] bos x 0)),
       (snd (split_tokens (scan [Cls q] bos x 0))
        ++ fst (split_tokens (scan [Cls q] false y 0))
           :: snd (split_tokens (scan [Cls q] false y 0)))%list).
Proof.
  intros Hc; induction x as [|d x IH]; intros bos.
  - cbn [append]; rewrite scan_Cls, Hc, scan_Cls_end; cbn [split_tokens].
    now destruct (split_tokens (scan [Cls q] false y 0)).
  - cbn [append]; rewrite !scan_Cls.
    destruct (q d); cbn [split_tokens]; rewrite (IH false);
      destruct (split_tokens (scan [Cls q] false x 0)); reflexivity.
Qed.

Lemma convertPart_app (c : ascii) (x y : string) :
  is_dash_or_dot c = true ->
  convertPart (x ++ String c y) = convertPart x ++ convertPart y.
Proof.
  intros Hc; unfold convertPart, dashDotRegex, split_re.
  rewrite (split_tokens_Cls_app _ _ _ _ Hc true), (scan_Cls_bos _ true y).
  destruct (split_tokens (scan [Cls is_dash_or_dot] true x 0)) as [hx tx].
  destruct (split_tokens (scan [Cls is_dash_or_dot] false y 0)) as [hy ty].
  cbn [fst snd]. change (hx :: tx ++ hy :: ty)%list with ((hx :: tx) ++ hy :: ty)%list.
  now rewrite map_app, join_empty_app.
Qed.

Lemma convert_from_start (s : string) :
  convertTypeNameToPascalCase s = convert_from "" s 0.
Proof.
  unfold convertTypeNameToPascalCase, convert_from, split.
  now destruct (split_from "::" s 0).
Qed.

Lemma convert_from_cons (q : string) (s : string) (skip : nat) :
  convert_from q s skip
  = convertPart (q ++ fst (split_from "::" s skip))
    ++ join "" (map convertPart (snd (split_from "::" s skip))).
Proof.
  unfold convert_from; destruct (split_from "::" s skip) as [p ps].
  cbn [map fst snd]; apply join_empty_cons.
Qed.

Lemma convert_from_skip (q : string) (c : ascii) (s : string) (n : nat) :
  convert_from q (String c s) (S n) = convert_from q s n.
Proof. reflexivity. Qed.

Lemma convert_from_separator (q : string) (c : ascii) (s : string) :
  startsWith (String c s) "::" = true ->
  convert_from q (String c s) 0 = convertPart q ++ convert_from "" s 1.
Proof.
  intros H; unfold convert_from; cbn [split_from]; rewrite H.
  change (String.length "::" - 1) with 1.
  destruct (split_from "::" s 1) as [p ps].
  cbn [map]; now rewrite join_empty_cons, append_nil_r.
Qed.

Lemma convert_from_char (q : string) (c : ascii) (s : string) :
  startsWith (String c s) "::" = false ->
  convert_from q (String c s) 0 = convert_from (q ++ String c "") s 0.
Proof.
  intros H; unfold convert_from; cbn [split_from]; rewrite H.
  destruct (split_from "::" s 0) as [p ps].
  now rewrite append_assoc.
Qed.

Lemma startsWith_colons_app (a t : string) :
  startsWith t ":" = false \/ (truthy a = true /\ endsWith a ":" = false) \/ a = "" /\ startsWith t "::" = false ->
  truthy a = true ->
  startsWith (a ++ t) "::" = startsWith a "::".
Proof.
  intros H Ha; destruct a as [|x [|y a]]; [discriminate| |].
  - unfold startsWith; cbn [append strip_prefix].
    destruct (Ascii.eqb ":" x) eqn:Ex; [|reflexivity].
    apply Ascii.eqb_eq in Ex; subst x.
    destruct H as [H | [[_ H] | [H _]]]; try discriminate.
    unfold startsWith in H; destruct t as [|z t]; [reflexivity|].
    cbn [strip_prefix] in *. now destruct (Ascii.eqb ":" z).
  - unfold startsWith; cbn [append strip_prefix].
    destruct (Ascii.eqb ":" x), (Ascii.eqb ":" y); reflexivity.
Qed.

Lemma endsWith_tail (c : ascii) (a l : string) :
  endsWith (String c a) l = false -> endsWith a l = false.
Proof. cbn [endsWith]; now destruct (String.eqb _ _). Qed.

Lemma convert_from_app (t b : string) :
  (forall q, convert_from q t 0 = convertPart q ++ convertTypeNameToPascalCase b) ->
  startsWith t ":" = false \/ startsWith t "::" = true ->
  forall a q k,
    k <= String.length a ->
    (startsWith t ":" = false \/ endsWith a ":" = false) ->
    convert_from q (a ++ t) k = convert_from q a k ++ convertTypeNameToPascalCase b.
Proof.
  intros Hbase Ht; induction a as [|x a IH]; intros q k Hk Ha.
  - simpl in Hk; replace k with 0 by lia; cbn [append].
    rewrite Hbase; unfold convert_from; cbn [split_from map join].
    now rewrite append_nil_r.
  - assert (Ha' : startsWith t ":" = false \/ endsWith a ":" = false)
      by (destruct Ha as [Ha | Ha]; [now left | right; now apply endsWith_tail in Ha]).
    destruct k as [|k].
    + assert (E : startsWith (String x a ++ t) "::" = startsWith (String x a) "::").
      { apply startsWith_colons_app; [|reflexivity].
        destruct Ha as [Ha | Ha]; [now left | right; left; now split]. }
      cbn [append] in *.
      destruct (startsWith (String x a) "::") eqn:S.
      * rewrite !convert_from_separator by congruence.
        rewrite IH; [now rewrite append_assoc| |exact Ha'].
        unfold startsWith in S; cbn [strip_prefix] in S.
        destruct (Ascii.eqb ":" x); [|discriminate].
        destruct a; [discriminate | simpl; lia].
      * rewrite !convert_from_char by congruence.
        apply IH; [lia | exact Ha'].
    + cbn [append]; rewrite !convert_from_skip.
      apply IH; [simpl in Hk; lia | exact Ha'].
Qed.

(** X9. The conversion of a name goes separator by separator: the
    conversion of two names joined by a hyphen or a dot is the conversion of
    the first followed by that of the second; so is that of two names joined
    by a double colon when the first does not end with a colon; and a name
    without separator is converted by putting its first character in upper
    case. *)
Theorem convert_by_separators :
  (forall a b c,
     is_dash_or_dot c = true ->
     convertTypeNameToPascalCase (a ++ String c b)
     = convertTypeNameToPascalCase a ++ convertTypeNameToPascalCase b)
  /\ (forall a b,
        endsWith a ":" = false ->
        convertTypeNameToPascalCase (a ++ "::" ++ b)
        = convertTypeNameToPascalCase a ++ convertTypeNameToPascalCase b)
  /\ (forall w,
        all_chars no_dash_dot w = true -> includes w "::" = false ->
        convertTypeNameToPascalCase w = capitalize w).
Proof.
  split; [|split].
  - intros a b c Hc.
    assert (Hcolon : startsWith (String c b) ":" = false)
      by (unfold startsWith; cbn [strip_prefix];
          destruct c as [[] [] [] [] [] [] [] []]; try discriminate; reflexivity).
    rewrite !(convert_from_start (a ++ _)), (convert_from_start a).
    apply convert_from_app; auto; [|lia].
    intros q; rewrite convert_from_char.
    + rewrite convert_from_cons, append_assoc; cbn [append].
      rewrite convertPart_app by exact Hc.
      rewrite convert_from_start, (convert_from_cons "" b 0), !append_assoc.
      reflexivity.
    + unfold startsWith in *; cbn [strip_prefix] in *.
      now destruct (Ascii.eqb ":" c).
  - intros a b Ha.
    rewrite !(convert_from_start (a ++ _)), (convert_from_start a).
    apply convert_from_app; auto; [|lia].
    intros q; cbn [append]; rewrite convert_from_separator by reflexivity.
    change (convert_from "" (String ":" b) 1) with (convert_from "" b 0).
    now rewrite <- convert_from_start.
  - intros w H1 H2; unfold convertTypeNameToPascalCase.
    rewrite (split_none _ _ H2); cbn [map join].
    unfold convertPart, dashDotRegex.
    now rewrite (split_re_Cls_none is_dash_or_dot w H1).
Qed.

Lemma convert_by_separators_witness :
  convertTypeNameToPascalCase ("plugin::users-permissions" ++ String "." "user")
  = convertTypeNameToPascalCase "plugin::users-permissions"
    ++ convertTypeNameToPascalCase "user".
Proof.
  apply (proj1 convert_by_separators); reflexivity.
Defined.

(** X10. A converted name holds no hyphen and no dot, holds only
    characters of the name or their upper case, and begins, when it is not
    empty, with a character that [toUpperCase] leaves as it is. *)
Theorem converted_name_shape (typeName : string) :
  all_chars no_dash_dot (convertTypeNameToPascalCase typeName) = true
  /\ capitalized (convertTypeNameToPascalCase typeName)
  /\ forall p : ascii -> bool,
       (forall c, p c = true -> p (upper_char c) = true) ->
       all_chars p typeName = true ->
       all_chars p (convertTypeNameToPascalCase typeName) = true.
Proof.
  split; [apply convert_free|]. split; [apply convert_capitalized|].
  intros p Hup H; now apply all_chars_convert.
Qed.

Lemma converted_name_shape_witness :
  all_chars is_word (convertTypeNameToPascalCase "api_v2") = true.
Proof.
  apply (proj2 (proj2 (converted_name_shape "api_v2")) is_word); [|reflexivity].
  intros c; destruct c as [[] [] [] [] [] [] [] []]; intros H; exact H.
Defined.

(* ================================================================== *)
(** ** What the collected interfaces are made of *)
(* ================================================================== *)

Lemma located_name (content : string) (block : nat * list string) :
  located content block ->
  truthy (group 1 (snd block)) = true
  /\ all_chars is_word (group 1 (snd block)) = true.
Proof.
  intros (before & text & rest & bos & _ & _ & H); simpl in H.
  destruct H as (t1 & _ & name & t2 & caps1 & _ & Hn & Hlen & H & E).
  destruct H as (w & t3 & caps2 & _ & _ & _ & H & ->).
  rewrite E; cbn [group Nat.sub nth]; split; [now apply truthy_length | exact Hn].
Qed.

Lemma retained_well_formed (interfaceMatch : list string) :
  truthy (group 1 interfaceMatch) = true ->
  all_chars is_word (group 1 interfaceMatch) = true ->
  Forall well_formed_interface (retained interfaceMatch).
Proof.
  intros H1 H2; unfold retained.
  destruct (attributes_block interfaceMatch) as [a|]; [|constructor].
  destruct (parseAttributes a) as [[|x l]|] eqn:E; constructor; [|constructor].
  unfold well_formed_interface; cbn [interface_name attributes]; repeat split; auto.
  - simpl; lia.
  - now apply parseAttributes_well_formed in E.
Qed.

(** X11. Every interface collected from an input text has a non-empty name
    made of word characters and at least one attribute, and each of its
    attributes has a non-empty name made of word characters and a type that
    is rendered on one line. *)
Theorem collected_interfaces_well_formed (backendContent : string) :
  exists interfaces,
    parseInterfaces backendContent = Some interfaces
    /\ Forall well_formed_interface interfaces.
Proof.
  destruct (interface_blocks_total (String.length backendContent) true
              backendContent 0 (le_n _)) as [blocks Hb].
  destruct (interface_blocks_located backendContent _ _ "" _ _ _
              eq_refl eq_refl Hb) as [Hloc _].
  exists (flat_map (fun b => retained (snd b)) blocks); split.
  - unfold parseInterfaces; now rewrite (collect_flat_map _ _ _ _ [] _ Hb).
  - clear Hb; induction Hloc as [|b blocks [_ Hl] _ IH]; [constructor|].
    cbn [flat_map]; apply Forall_app; split; [|exact IH].
    destruct (located_name _ _ Hl); now apply retained_well_formed.
Qed.

(* ================================================================== *)
(** ** The lines of the output *)
(* ================================================================== *)

Lemma split_from_line (c : ascii) (l rest : string) :
  all_chars (not_chr c) l = true ->
  split_from (String c "") (l ++ String c rest) 0
  = (l, fst (split_from (String c "") rest 0)
        :: snd (split_from (String c "") rest 0)).
Proof.
  induction l as [|x l IH]; intros H.
  - cbn [append split_from]; unfold startsWith; cbn [strip_prefix].
    rewrite Ascii.eqb_refl; cbn [String.length Nat.sub].
    now destruct (split_from (String c "") rest 0).
  - simpl in H; apply andb_prop in H as [Hx Hl].
    cbn [append split_from]; unfold startsWith; cbn [strip_prefix].
    unfold not_chr in Hx; apply negb_true_iff in Hx; rewrite Hx.
    now rewrite (IH Hl).
Qed.

Lemma split_from_last (c : ascii) (l : string) :
  all_chars (not_chr c) l = true -> split_from (String c "") l 0 = (l, []).
Proof.
  induction l as [|x l IH]; intros H; [reflexivity|].
  simpl in H; apply andb_prop in H as [Hx Hl].
  cbn [split_from]; unfold startsWith; cbn [strip_prefix].
  unfold not_chr in Hx; apply negb_true_iff in Hx; rewrite Hx.
  now rewrite (IH Hl).
Qed.

(** Splitting what was joined gives the pieces back, when none holds the
    separator. *)
Lemma split_join (c : ascii) (ls : list string) :
  ls <> [] -> Forall (fun l => all_chars (not_chr c) l = true) ls ->
  split (join (String c "") ls) (String c "") = ls.
Proof.
  intros Hne H; induction H as [|l ls Hl Hls IH]; [contradiction|].
  destruct ls as [|l2 ls]; unfold split.
  - cbn [join]; now rewrite split_from_last.
  - change (join (String c "") (l :: l2 :: ls))
      with (l ++ String c (join (String c "") (l2 :: ls))).
    rewrite split_from_line by exact Hl.
    f_equal. specialize (IH ltac:(discriminate)); unfold split in IH.
    now destruct (split_from (String c "") (join (String c "") (l2 :: ls)) 0).
Qed.

Lemma join_app (sep : string) (l1 l2 : list string) :
  l1 <> [] -> l2 <> [] ->
  join sep (l1 ++ l2) = join sep l1 ++ sep ++ join sep l2.
Proof.
  intros H1 H2; induction l1 as [|x l1 IH]; [contradiction|].
  destruct l1 as [|y l1].
  - destruct l2; [contradiction | reflexivity].
  - change (join sep ((x :: y :: l1) ++ l2))
      with (x ++ sep ++ join sep ((y :: l1) ++ l2)).
    rewrite IH by discriminate.
    change (join sep (x :: y :: l1)) with (x ++ sep ++ join sep (y :: l1)).
    now rewrite !append_assoc.
Qed.

Lemma join_cons (sep x : string) (ls : list string) :
  ls <> [] -> join sep (x :: ls) = x ++ sep ++ join sep ls.
Proof. destruct ls; [contradiction | reflexivity]. Qed.

Lemma interface_lines_tail (iface : ParsedInterface) :
  (map render_attribute (attributes iface) ++ ["}"])%list <> [].
Proof. destruct (map render_attribute (attributes iface)); discriminate. Qed.

Lemma render_interface_lines (iface : ParsedInterface) :
  1 <= List.length (attributes iface) ->
  render_interface iface = join LF (interface_lines iface).
Proof.
  intros H; unfold render_interface, interface_lines; cbv zeta.
  rewrite join_cons by apply interface_lines_tail.
  rewrite join_app; [|destruct (attributes iface); [simpl in H; lia | discriminate]
                     |discriminate].
  cbn [join]; now rewrite !append_assoc.
Qed.

Lemma render_output_lines (interfaces : list ParsedInterface) :
  Forall (fun iface => 1 <= List.length (attributes iface)) interfaces ->
  render interfaces = join LF (output_lines interfaces).
Proof.
  unfold render; induction 1 as [|f fs Hf Hfs IH]; [reflexivity|].
  destruct fs as [|g fs].
  - cbn [map join output_lines flat_map]; rewrite List.app_nil_r.
    now apply render_interface_lines.
  - cbn [map]; rewrite join_cons by discriminate.
    cbn [map] in IH; rewrite IH, (render_interface_lines _ Hf).
    cbn [output_lines flat_map].
    rewrite (join_app LF (interface_lines f)); [|discriminate|discriminate].
    rewrite <- app_comm_cons, (join_cons LF EmptyString);
      [|unfold interface_lines; discriminate].
    cbn [append]; now rewrite !append_assoc.
Qed.

Lemma dot_not_LF (c : ascii) : dot c = true -> not_chr "010" c = true.
Proof. destruct c as [[] [] [] [] [] [] [] []]; intros H; try exact H; reflexivity. Qed.

Lemma interface_lines_free (iface : ParsedInterface) :
  well_formed_interface iface ->
  Forall (fun l => all_chars (not_chr "010") l = true) (interface_lines iface).
Proof.
  intros (_ & Hn & _ & Ha); unfold interface_lines.
  constructor.
  - rewrite !all_chars_app.
    rewrite (all_chars_impl _ _ _ (fun c H => dot_not_LF c (word_dot c H)) Hn).
    reflexivity.
  - apply Forall_app; split; [|now constructor].
    apply Forall_map; eapply Forall_impl; [|exact Ha].
    intros a (_ & _ & _ & Hd); now apply (all_chars_impl _ _ _ dot_not_LF).
Qed.

Lemma output_lines_free (interfaces : list ParsedInterface) :
  Forall well_formed_interface interfaces ->
  Forall (fun l => all_chars (not_chr "010") l = true) (output_lines interfaces).
Proof.
  intros H; destruct H as [|f fs Hf Hfs]; [now constructor|].
  cbn [output_lines]; apply Forall_app; split; [now apply interface_lines_free|].
  induction Hfs as [|g fs Hg _ IH]; [constructor|].
  cbn [flat_map]; constructor; [reflexivity|].
  apply Forall_app; split; [now apply interface_lines_free | exact IH].
Qed.

(** X12. The output is made of lines: for each collected interface, in
    order, a line with its name between "export interface " and an opening
    brace, one line for each of its attributes and a line with the closing
    brace, with one empty line between two interfaces and no line break at
    the end. *)
Theorem output_is_made_of_lines (backendContent : string) :
  exists interfaces output,
    parseInterfaces backendContent = Some interfaces
    /\ generateTypes backendContent = Some output
    /\ output = join LF (output_lines interfaces)
    /\ split output LF = output_lines interfaces.
Proof.
  destruct (interface_blocks_total (String.length backendContent) true
              backendContent 0 (le_n _)) as [blocks Hb].
  destruct (interface_blocks_located backendContent _ _ "" _ _ _
              eq_refl eq_refl Hb) as [Hloc _].
  pose (interfaces := flat_map (fun b => retained (snd b)) blocks).
  assert (Hp : parseInterfaces backendContent = Some interfaces)
    by (unfold parseInterfaces; now rewrite (collect_flat_map _ _ _ _ [] _ Hb)).
  assert (Hw : Forall well_formed_interface interfaces).
  { subst interfaces; clear Hb Hp.
    induction Hloc as [|b blocks [_ Hl] _ IH]; [constructor|].
    cbn [flat_map]; apply Forall_app; split; [|exact IH].
    destruct (located_name _ _ Hl); now apply retained_well_formed. }
  assert (Hr : render interfaces = join LF (output_lines interfaces)).
  { apply render_output_lines. eapply Forall_impl; [|exact Hw].
    now intros f (_ & _ & H & _). }
  exists interfaces, (render interfaces); split; [exact Hp|].
  split; [unfold generateTypes; now rewrite Hp|].
  split; [exact Hr|].
  rewrite Hr; apply split_join; [|now apply output_lines_free].
  destruct interfaces as [|f fs]; [discriminate|].
  unfold output_lines, interface_lines; discriminate.
Qed.

(* ================================================================== *)
(** ** [transformAttributeType]: an enumeration of nothing *)
(* ================================================================== *)

(** X13. An enumeration whose bracketed list holds only white space is
    typed with the empty text, so that the attribute is rendered with no
    type between the colon and the semicolon. *)
Theorem blank_enumeration_is_empty (attributeType pre body : string) :
  includes attributeType "Schema.Attribute.Enumeration" = true ->
  leftmost_enumeration attributeType pre body ->
  all_chars is_space body = true ->
  transformAttributeType attributeType = ""
  /\ forall attrName isRequired,
       render_attribute {| name := attrName;
                           type := transformAttributeType attributeType;
                           required := isRequired |}
       = "  " ++ attrName ++ (if isRequired then "" else "?") ++ ": ;".
Proof.
  intros Hm Hleft Hws.
  assert (E : transformAttributeType attributeType = "").
  { unfold transformAttributeType; rewrite Hm.
    rewrite (exec_enumRegex_leftmost _ _ _ Hleft).
    destruct Hleft as [(ws1 & ws2 & post & _ & _ & _ & Hb & _) _].
    cbn [group Nat.sub nth]; rewrite Hb.
    rewrite replace_spaces_collapse, replace_commas_bars.
    unfold collapse; rewrite <- (append_nil_r body).
    rewrite collapse_space_prefix by auto. now rewrite Hb. }
  split; [exact E|].
  intros attrName isRequired; unfold render_attribute; cbn [name type required].
  now rewrite E.
Qed.

Lemma blank_enumeration_witness :
  transformAttributeType "Schema.Attribute.Enumeration<[ ]>" = "".
Proof.
  apply (blank_enumeration_is_empty _ "Schema.Attribute." " "); try reflexivity.
  apply leftmost_enumeration_indexOf; [|reflexivity].
  exists "", "", ""; repeat split; reflexivity.
Defined.

(* ================================================================== *)
(** ** Text after a match *)
(* ================================================================== *)

Lemma strip_prefix_all_chars (p : ascii -> bool) (l s t : string) :
  strip_prefix l s = Some t -> all_chars p s = true -> all_chars p t = true.
Proof.
  intros H Hs; apply strip_prefix_inv in H; subst.
  now apply all_chars_app_inv in Hs as [_ Hs].
Qed.

Section FollowedBy.

Variable c : ascii.
Variable p : ascii -> bool.
Variable k : bool -> string -> option outcome.

(** The rest of the pattern finds nothing in a text without [c]. *)
Hypothesis k_none :
  forall bos v, all_chars (not_chr c) v = true -> k bos v = None.

Lemma repeat_none (q : quant) (bos : bool) (z : string) :
  all_chars (not_chr c) z = true -> repeat p k q bos z = None.
Proof.
  intros Hz.
  assert (Hstop : forall bos z, all_chars (not_chr c) z = true ->
                                stop_here k bos z = None)
    by (intros b v Hv; unfold stop_here; now rewrite k_none).
  assert (Hstar : forall bos z, all_chars (not_chr c) z = true ->
                                greedy_star p k bos z = None).
  { intros b v; revert b; induction v as [|x v IH]; intros b Hv;
      cbn [greedy_star]; [now apply Hstop|].
    pose proof Hv as Hv'; simpl in Hv'; apply andb_prop in Hv' as [_ Hv'].
    rewrite (IH false Hv'), (Hstop _ _ Hv); now destruct (p x). }
  destruct q; cbn [repeat].
  - now apply Hstar.
  - unfold greedy_plus; destruct z as [|x z]; [reflexivity|].
    simpl in Hz; apply andb_prop in Hz as [_ Hz].
    rewrite (Hstar false z Hz); now destruct (p x).
  - unfold greedy_opt; destruct z as [|x z]; [now apply Hstop|].
    pose proof Hz as Hz'; simpl in Hz'; apply andb_prop in Hz' as [_ Hz'].
    rewrite (k_none false z Hz'), (Hstop _ _ Hz); now destruct (p x).
  - revert bos; induction z as [|x z IH]; intros bos; cbn [lazy_star];
      rewrite (k_none _ _ Hz); [reflexivity|].
    simpl in Hz; apply andb_prop in Hz as [_ Hz].
    rewrite (IH Hz); now destruct (p x).
Qed.

Variable z : string.
Hypothesis z_free : all_chars (not_chr c) z = true.

(** The rest of the pattern finds in a text followed by [z] what it finds
    in the text. *)
Hypothesis k_followed :
  forall bos v, k bos (v ++ z) = followed_by z (k bos v).

Lemma stop_here_followed (bos : bool) (u : string) :
  stop_here k bos (u ++ z) = read_followed z (stop_here k bos u).
Proof.
  unfold stop_here; rewrite k_followed.
  now destruct (k bos u) as [[caps rest]|].
Qed.

Lemma greedy_star_followed (bos : bool) (u : string) :
  greedy_star p k bos (u ++ z) = read_followed z (greedy_star p k bos u).
Proof.
  revert bos; induction u as [|x u IH]; intros bos.
  - pose proof (repeat_none Star bos z z_free) as N; cbn [repeat] in N.
    cbn [append]; rewrite N.
    cbn [greedy_star]; unfold stop_here.
    now rewrite (k_none bos "" eq_refl).
  - pose proof (stop_here_followed bos (String x u)) as N; cbn [append] in N.
    cbn [append greedy_star]; rewrite (IH false), N.
    destruct (p x); [|reflexivity].
    now destruct (greedy_star p k false u) as [[w [caps rest]]|].
Qed.

Lemma lazy_star_followed (bos : bool) (u : string) :
  lazy_star p k bos (u ++ z) = read_followed z (lazy_star p k bos u).
Proof.
  revert bos; induction u as [|x u IH]; intros bos.
  - pose proof (repeat_none LazyStar bos z z_free) as N; cbn [repeat] in N.
    cbn [append]; rewrite N.
    cbn [lazy_star]; now rewrite (k_none bos "" eq_refl).
  - pose proof (k_followed bos (String x u)) as N; cbn [append] in N.
    cbn [append lazy_star]; rewrite (IH false), N.
    destruct (k bos (String x u)) as [[caps rest]|]; [reflexivity|].
    cbn [followed_by]; destruct (p x); [|reflexivity].
    now destruct (lazy_star p k false u) as [[w [caps rest]]|].
Qed.

Lemma repeat_followed (q : quant) (bos : bool) (u : string) :
  repeat p k q bos (u ++ z) = read_followed z (repeat p k q bos u).
Proof.
  destruct q; cbn [repeat].
  - apply greedy_star_followed.
  - destruct u as [|x u].
    + pose proof (repeat_none Plus bos z z_free) as N; cbn [repeat] in N.
      cbn [append]; now rewrite N.
    + cbn [append greedy_plus]; rewrite greedy_star_followed.
      destruct (p x); [|reflexivity].
      now destruct (greedy_star p k false u) as [[w [caps rest]]|].
  - destruct u as [|x u].
    + pose proof (repeat_none Opt bos z z_free) as N; cbn [repeat] in N.
      cbn [append]; rewrite N.
      cbn [greedy_opt]; unfold stop_here; now rewrite (k_none bos "" eq_refl).
    + pose proof (stop_here_followed bos (String x u)) as N; cbn [append] in N.
      cbn [append greedy_opt]; rewrite N, k_followed.
      destruct (p x); [|reflexivity].
      now destruct (k false u) as [[caps rest]|].
  - apply lazy_star_followed.
Qed.

End FollowedBy.

Lemma ends_with_char_tail (c : ascii) (a a' : atom) (re : regex) :
  ends_with_char c (a :: a' :: re) -> ends_with_char c (a' :: re).
Proof. intros H; exact H. Qed.

(** A pattern that ends with the character [c] finds nothing in a text
    without [c]. *)
Lemma match_here_char_free (c : ascii) (re : regex) :
  ends_with_char c re ->
  forall bos z, all_chars (not_chr c) z = true -> match_here re bos z = None.
Proof.
  induction re as [|a re IH]; [contradiction|].
  destruct re as [|a' re].
  - intros -> bos z Hz; cbn [match_here strip_prefix].
    destruct z as [|x z]; [reflexivity|].
    simpl in Hz; apply andb_prop in Hz as [Hx _].
    unfold not_chr in Hx; apply negb_true_iff in Hx; now rewrite Hx.
  - intros H bos z Hz; specialize (IH (ends_with_char_tail _ _ _ _ H)).
    clear H; remember (a' :: re) as re' eqn:R; clear R.
    destruct a as [l|q|q cap q'| |m]; cbn [match_here].
    + destruct (strip_prefix l z) as [t|] eqn:E; [|reflexivity].
      apply IH; eapply strip_prefix_all_chars; eauto.
    + destruct z as [|x z]; [reflexivity|].
      simpl in Hz; apply andb_prop in Hz as [_ Hz].
      rewrite (IH false z Hz); now destruct (q x).
    + now rewrite (repeat_none c q' (match_here re') IH q bos z Hz).
    + destruct bos; [now apply IH | reflexivity].
    + rewrite (IH bos z Hz); now destruct (at_eol m z).
Qed.

Lemma strip_prefix_followed (l u z : string) :
  match strip_prefix l u with
  | Some t => strip_prefix l (u ++ z) = Some (t ++ z)
  | None =>
      strip_prefix l (u ++ z) = None
      \/ exists t z0, strip_prefix l (u ++ z) = Some t /\ z = z0 ++ t
  end.
Proof.
  revert u; induction l as [|a l IH]; intros u; [reflexivity|].
  destruct u as [|x u].
  - cbn [append]; change (strip_prefix (String a l) "") with (@None string).
    destruct (strip_prefix (String a l) z) as [t|] eqn:E; [|now left].
    right; exists t, (String a l); split; [reflexivity|].
    now apply strip_prefix_inv in E.
  - cbn [strip_prefix append].
    destruct (Ascii.eqb a x); [apply IH | now left].
Qed.

(** A pattern that ends with the character [c] finds in a text followed by
    a text without [c] what it finds in the text. *)
Lemma match_here_followed (c : ascii) (z : string) (re : regex) :
  all_chars (not_chr c) z = true ->
  ends_with_char c re ->
  forall bos u, match_here re bos (u ++ z) = followed_by z (match_here re bos u).
Proof.
  intros Hz; induction re as [|a re IH]; [contradiction|].
  destruct re as [|a' re].
  - intros -> bos u; cbn [match_here].
    destruct u as [|x u]; cbn [append strip_prefix].
    + destruct z as [|y z]; [reflexivity|].
      simpl in Hz; apply andb_prop in Hz as [Hy _].
      unfold not_chr in Hy; apply negb_true_iff in Hy; now rewrite Hy.
    + now destruct (Ascii.eqb c x).
  - intros H bos u; pose proof (ends_with_char_tail _ _ _ _ H) as H'.
    specialize (IH H').
    pose proof (match_here_char_free c _ H') as Hnone.
    clear H H'; remember (a' :: re) as re' eqn:R; clear R.
    destruct a as [l|q|q cap q'| |m]; cbn [match_here].
    + pose proof (strip_prefix_followed l u z) as S.
      destruct (strip_prefix l u) as [t|].
      * rewrite S; apply IH.
      * destruct S as [-> | (t & z0 & -> & E)]; [reflexivity|].
        rewrite Hnone; [reflexivity|].
        rewrite E in Hz; now apply all_chars_app_inv in Hz as [_ Hz].
    + destruct u as [|x u]; cbn [append].
      * destruct z as [|y z]; [reflexivity|].
        simpl in Hz; apply andb_prop in Hz as [_ Hz].
        rewrite (Hnone false z Hz); now destruct (q y).
      * destruct (q x); [apply IH | reflexivity].
    + rewrite (repeat_followed c q' (match_here re') Hnone z Hz IH q bos u).
      now destruct (repeat q' (match_here re') q bos u) as [[w [caps rest]]|].
    + destruct bos; [apply IH | reflexivity].
    + destruct u as [|x u]; cbn [append].
      * rewrite (Hnone bos z Hz), (Hnone bos "" eq_refl).
        now destruct (at_eol m z).
      * cbn [at_eol]; destruct (m && is_line_terminator x); [|reflexivity].
        apply (IH bos (String x u)).
Qed.

Lemma exec_followed (c : ascii) (z : string) (re : regex) (u : string) :
  all_chars (not_chr c) z = true -> ends_with_char c re ->
  exec re (u ++ z) = exec re u.
Proof.
  intros Hz Hre; unfold exec.
  enough (E : forall bos,
            search re bos (u ++ z)
            = match search re bos u with
              | Some (pre, caps, rest) => Some (pre, caps, rest ++ z)
              | None => None
              end).
  { rewrite E; now destruct (search re true u) as [[[pre caps] rest]|]. }
  induction u as [|x u IH]; intros bos.
  - cbn [append search]; rewrite (match_here_char_free c re Hre bos "" eq_refl).
    apply search_none; intros a b E.
    apply match_here_char_free with (c := c); [exact Hre|].
    rewrite E in Hz; now apply all_chars_app_inv in Hz as [_ Hz].
  - cbn [append search].
    change (String x (u ++ z)) with (String x u ++ z).
    rewrite (match_here_followed c z re Hz Hre bos (String x u)).
    destruct (match_here re bos (String x u)) as [[caps rest]|]; [reflexivity|].
    cbn [followed_by]; rewrite (IH false).
    now destruct (search re false u) as [[[pre caps] rest]|].
Qed.

(* ================================================================== *)
(** ** [transformAttributeType]: modifiers *)
(* ================================================================== *)

Lemma startsWith_before_space (l s y : string) :
  truthy l = true -> all_chars (not_chr " ") l = true ->
  startsWith (s ++ String " " y) l = startsWith s l.
Proof.
  unfold startsWith; revert s; induction l as [|a l IH]; intros s Hl Hs;
    [discriminate|].
  simpl in Hs; apply andb_prop in Hs as [Ha Hs].
  destruct s as [|x s]; cbn [append strip_prefix].
  - unfold not_chr in Ha; apply negb_true_iff in Ha.
    rewrite Ascii.eqb_sym in Ha; now rewrite Ha.
  - destruct (Ascii.eqb a x); [|reflexivity].
    destruct l as [|b l]; [reflexivity|].
    now apply IH.
Qed.

(** A text without space is found before or after a space, not across. *)
Lemma includes_around_space (l s y : string) :
  truthy l = true -> all_chars (not_chr " ") l = true ->
  includes (s ++ String " " y) l = includes s l || includes y l.
Proof.
  intros Hl Hs; unfold includes; induction s as [|x s IH].
  - cbn [append indexOf].
    change (String " " y) with ("" ++ String " " y).
    rewrite (startsWith_before_space l "" y Hl Hs).
    destruct (startsWith "" l); [reflexivity|].
    now destruct (indexOf y l).
  - cbn [append indexOf].
    change (String x (s ++ String " " y)) with (String x s ++ String " " y).
    rewrite (startsWith_before_space l (String x s) y Hl Hs).
    destruct (startsWith (String x s) l); [reflexivity|].
    destruct (indexOf (s ++ String " " y) l), (indexOf s l), (indexOf y l);
      simpl in *; congruence.
Qed.

(** X14. Text that follows a type expression after a space and that holds
    none of the markers of a type, no closing angle bracket and no single
    quote, as the required, the unique and the private markers joined by
    ampersands, leaves the transformed type as it is. *)
Theorem modifiers_leave_type (attributeType y : string) :
  neutral y = true ->
  transformAttributeType (attributeType ++ " " ++ y)
  = transformAttributeType attributeType.
Proof.
  intros H; unfold neutral in H.
  apply andb_prop in H as [H Hm]; apply andb_prop in H as [Hgt Hq].
  assert (I : forall l, In l type_markers ->
                        includes (attributeType ++ String " " y) l
                        = includes attributeType l).
  { intros l Hl.
    assert (truthy l = true /\ all_chars (not_chr " ") l = true) as [T F]
      by (repeat destruct Hl as [<- | Hl]; try contradiction; split; reflexivity).
    rewrite (includes_around_space l _ _ T F).
    rewrite forallb_forall in Hm; specialize (Hm l Hl).
    apply negb_true_iff in Hm; now rewrite Hm, orb_false_r. }
  assert (Ee : exec enumRegex (attributeType ++ String " " y)
               = exec enumRegex attributeType)
    by (apply (exec_followed ">"); [simpl; now rewrite Hgt | reflexivity]).
  assert (Er : exec relationRegex (attributeType ++ String " " y)
               = exec relationRegex attributeType)
    by (apply (exec_followed "'"); [simpl; now rewrite Hq | reflexivity]).
  change (" " ++ y) with (String " " y).
  unfold transformAttributeType; rewrite Ee, Er.
  repeat match goal with
         | |- context [includes (attributeType ++ String " " y) ?l] =>
             rewrite (I l) by (simpl; tauto)
         end.
  reflexivity.
Qed.

Lemma modifiers_leave_type_witness :
  transformAttributeType
    ("Schema.Attribute.Relation<'oneToMany', 'api::tag.tag'>"
     ++ " " ++ "& Schema.Attribute.Required & Schema.Attribute.Private")
  = transformAttributeType "Schema.Attribute.Relation<'oneToMany', 'api::tag.tag'>".
Proof. apply modifiers_leave_type; reflexivity. Defined.

(* ================================================================== *)
(** ** [transformAttributeType]: an enumeration without a list *)
(* ================================================================== *)

(** X15. A type expression with the enumeration marker that holds no
    opening or no closing square bracket, as when the values are given by
    a named type, is typed "string", whatever other markers it holds. *)
Theorem enumeration_without_list_is_string (attributeType : string) :
  includes attributeType "Schema.Attribute.Enumeration" = true ->
  all_chars (not_chr "[") attributeType = true
  \/ all_chars (not_chr "]") attributeType = true ->
  transformAttributeType attributeType = "string".
Proof.
  intros Hm Hfree; unfold transformAttributeType; rewrite Hm.
  destruct (exec enumRegex attributeType) as [caps|] eqn:E; [|reflexivity].
  exfalso.
  apply exec_enumRegex_Some in E
    as (pre & body & ws1 & ws2 & post & -> & _).
  destruct Hfree as [H | H].
  - apply all_chars_app_inv in H as [_ H].
    apply all_chars_app_inv in H as [_ H].
    apply all_chars_app_inv in H as [_ H].
    apply all_chars_app_inv in H as [H _]; discriminate.
  - apply all_chars_app_inv in H as [_ H].
    apply all_chars_app_inv in H as [_ H].
    apply all_chars_app_inv in H as [_ H].
    apply all_chars_app_inv in H as [_ H].
    apply all_chars_app_inv in H as [_ H].
    apply all_chars_app_inv in H as [H _]; discriminate.
Qed.

Lemma enumeration_without_list_witness :
  transformAttributeType
    "Schema.Attribute.Enumeration<Colours> & Schema.Attribute.DefaultTo<'red'>"
  = "string".
Proof.
  apply enumeration_without_list_is_string; [reflexivity | left; reflexivity].
Defined.
